(** * Dafny-VSCode language server: backend supervision

    A shallow embedding of the parts of the language server that talk to
    the Dafny backend process: the version probe of
    [server/src/backend/dependencyVerifier.ts], the connection handlers
    of the server's entry module, the rename provider of
    [server/src/backend/features/renameProvider.ts] and the types
    [VerificationStatus] and [VerificationResult]. The supervisor, the
    dispatcher and the framer, whose code is not among these sources,
    are modelled from the specification.

    JavaScript strings are modelled as [string], indices as [Z] (so that
    the [-1] of [indexOf] is a value like any other), promises by their
    settlement, and callbacks by state-passing functions. *)

From Stdlib Require Import String Ascii ZArith List Bool Arith Lia.
Import ListNotations.

Local Open Scope string_scope.
Local Open Scope Z_scope.

(* ===================================================================== *)
(** * JavaScript string primitives *)
(* ===================================================================== *)

Module JS.

(** The line feed, ["\n"] in the source. *)
Definition LF : ascii := Ascii.ascii_of_nat 10.
Definition newline : string := String LF EmptyString.

Definition len (s : string) : Z := Z.of_nat (String.length s).

(** Indices handed to [indexOf] and [substring] are first clamped to
    the range [0 .. length]. *)
Definition clamp (s : string) (i : Z) : Z := Z.min (Z.max i 0) (len s).

(** [s.indexOf(pat, position)]: the least index at or after the clamped
    position where [pat] occurs, [-1] when there is none. *)
Definition indexOf (s pat : string) (position : Z) : Z :=
  match String.index (Z.to_nat (clamp s position)) pat s with
  | Some k => Z.of_nat k
  | None => -1
  end.

(** [s.substring(start, end)]: both ends are clamped, and swapped when
    the start lies after the end. *)
Definition substring (s : string) (start end_ : Z) : string :=
  let fs := clamp s start in
  let fe := clamp s end_ in
  let from := Z.min fs fe in
  let to := Z.max fs fe in
  String.substring (Z.to_nat from) (Z.to_nat (to - from)) s.

(** Truthiness of a value of type [string | undefined]: [undefined] and
    the empty string are falsy. *)
Definition truthy (v : option string) : bool :=
  match v with
  | None => false
  | Some s => negb (String.eqb s EmptyString)
  end.

(** [pat] occurs in [s] at index [k]. *)
Definition occurs_at (pat s : string) (k : nat) : Prop :=
  String.substring k (String.length pat) s = pat.

(** [c] is not a character of [s]. *)
Fixpoint free_of (c : ascii) (s : string) : bool :=
  match s with
  | EmptyString => true
  | String a s' => negb (Ascii.eqb a c) && free_of c s'
  end.

End JS.

(* ===================================================================== *)
(** * Promises *)
(* ===================================================================== *)

Module Promise.

(** The settlement of a promise carrying values of type [A] and
    rejection reasons of type [E]. *)
Inductive t (A E : Type) : Type :=
| Pending
| Fulfilled (a : A)
| Rejected (e : E).
Arguments Pending {A E}.
Arguments Fulfilled {A E} a.
Arguments Rejected {A E} e.

(** What running a handler synchronously gives: a value or a throw. *)
Inductive completion (A E : Type) : Type :=
| Return (a : A)
| Throw (e : E).
Arguments Return {A E} a.
Arguments Throw {A E} e.

(** The [resolve] and [reject] functions of [new Promise(...)]: only the
    first call settles the promise. *)
Definition resolve {A E} (p : t A E) (a : A) : t A E :=
  match p with Pending => Fulfilled a | _ => p end.

Definition reject {A E} (p : t A E) (e : E) : t A E :=
  match p with Pending => Rejected e | _ => p end.

Definition of_completion {A E} (c : completion A E) : t A E :=
  match c with Return a => Fulfilled a | Throw e => Rejected e end.

(** [p.then(onFulfilled, onRejected)]. *)
Definition then2 {A B E} (p : t A E)
    (onFulfilled : A -> completion B E) (onRejected : E -> completion B E)
    : t B E :=
  match p with
  | Pending => Pending
  | Fulfilled a => of_completion (onFulfilled a)
  | Rejected e => of_completion (onRejected e)
  end.

(** [p.then(onFulfilled)]: a rejection passes through. *)
Definition then1 {A B E} (p : t A E) (onFulfilled : A -> completion B E)
    : t B E :=
  then2 p onFulfilled (fun e => Throw e).

(** [p.catch(onRejected)]: a value passes through. *)
Definition catch {A E} (p : t A E) (onRejected : E -> completion A E)
    : t A E :=
  then2 p (fun a => Return a) onRejected.

Definition is_rejected {A E} (p : t A E) : bool :=
  match p with Rejected _ => true | _ => false end.

Definition is_fulfilled {A E} (p : t A E) : bool :=
  match p with Fulfilled _ => true | _ => false end.

End Promise.

(* ===================================================================== *)
(** * The version probe ([dependencyVerifier.ts]) *)
(* ===================================================================== *)

Module DependencyVerifier.

Import JS.

Definition VERSION_STRING : string := "VERSION:".

(** [DependencyVerifier.parseVersion]. *)
Definition parseVersion (outBuf : string) : option string :=
  if indexOf outBuf VERSION_STRING 0 >? -1 then
    let start := indexOf outBuf VERSION_STRING 0 in
    let end_ := indexOf outBuf newline start in
    Some (substring outBuf (start + len VERSION_STRING) end_)
  else None.

(** Reasons the probe's promise is rejected with: an error object, or
    the exit code of the process. *)
Inductive reason : Type :=
| Err (message : string)
| ExitCode (code : Z).

(** What the probe writes to the backend's standard input. *)
Inductive command : Type :=
| VersionRequest   (* sendRequestToDafnyServer("", "version") *)
| Quit.            (* sendQuit() *)

(** The calls a handler makes, in order. *)
Inductive effect : Type :=
| Send (c : command)
| Resolve (v : string)
| Reject (r : reason)
| ConsoleLog (code : Z).

(** The state of one probe: the wrapper's output buffer, the promise
    returned by [verifyDafnyServer], the calls made so far and the
    number of processes spawned. *)
Record probe : Type := mkProbe {
  outBuf : string;
  promise : Promise.t string reason;
  calls : list effect;
  spawned : nat
}.

(** A call is recorded; [resolve] and [reject] settle the promise
    when it is pending. *)
Definition perform (e : effect) (st : probe) : probe :=
  {| outBuf := outBuf st;
     promise :=
       match e with
       | Resolve v => Promise.resolve (promise st) v
       | Reject r => Promise.reject (promise st) r
       | _ => promise st
       end;
     calls := calls st ++ [e];
     spawned := spawned st |}.

(** The data callback handed to [ProcessWrapper] by [spawnNewProcess]. *)
Definition onData (st : probe) : probe :=
  let versionString := parseVersion (outBuf st) in
  match versionString with
  | Some v =>
      if truthy versionString
      then perform (Resolve v) (perform (Send Quit) st)
      else st
  | None => st
  end.

(** The exit callback handed to [ProcessWrapper] by [spawnNewProcess]. *)
Definition onExit (code : Z) (st : probe) : probe :=
  let st := perform (ConsoleLog code) st in
  if negb (code =? 0) then perform (Reject (ExitCode code)) st else st.

(** The three error handlers of [spawnNewProcess] all call [reject]. *)
Definition onError (e : string) (st : probe) : probe :=
  perform (Reject (Err e)) st.

(** What can happen to the spawned process. *)
Inductive event : Type :=
| ProcessError (e : string)   (* process.on("error") *)
| StdinError (e : string)     (* process.stdin.on("error") *)
| WrapperError (e : string)   (* the wrapper's error callback *)
| Data (chunk : string)       (* the wrapper's data callback *)
| Exit (code : Z).            (* the wrapper's exit callback *)

(** Modelled from the spec: [ProcessWrapper] (process/process.ts) is
    not part of the sources at hand; as the framer of the
    specification does, it appends every chunk of output to its
    accumulation buffer [outBuf] and then runs the data callback. *)
Definition receive (chunk : string) (st : probe) : probe :=
  onData {| outBuf := outBuf st ++ chunk;
            promise := promise st;
            calls := calls st;
            spawned := spawned st |}.

(** The handler [spawnNewProcess] installed for the event. *)
Definition handle (ev : event) (st : probe) : probe :=
  match ev with
  | ProcessError e => onError e st
  | StdinError e => onError e st
  | WrapperError e => onError e st
  | Data chunk => receive chunk st
  | Exit code => onExit code st
  end.

(** [verifyDafnyServer]: one process is spawned, the promise is pending
    and the version request has been written. *)
Definition verifyDafnyServer : probe :=
  {| outBuf := EmptyString;
     promise := Promise.Pending;
     calls := [Send VersionRequest];
     spawned := 1 |}.

(** The probe after a sequence of events. *)
Definition run (evs : list event) (st : probe) : probe :=
  fold_left (fun s ev => handle ev s) evs st.

(** The events that report a failed launch or a failed process. *)
Definition failure (ev : event) : option reason :=
  match ev with
  | ProcessError e | StdinError e | WrapperError e => Some (Err e)
  | Exit code => if code =? 0 then None else Some (ExitCode code)
  | Data _ => None
  end.

(** The quit commands among the calls made. *)
Definition quits (l : list effect) : nat :=
  List.length
    (filter (fun e => match e with Send Quit => true | _ => false end) l).

(** A probe whose wrapper has accumulated [buf] and whose promise is
    still pending. *)
Definition probing (buf : string) : probe :=
  {| outBuf := buf; promise := Promise.Pending;
     calls := [Send VersionRequest]; spawned := 1 |}.

End DependencyVerifier.

(* ===================================================================== *)
(** * String resources ([strings/stringRessources.ts]) *)
(* ===================================================================== *)

Module Strings.

Definition DafnyMissing : string := "dafnymissing".
Definition AskInstallDafny : string := "Would you like to install Dafny?".
Definition DafnyUpdateAvailable : string :=
  "Update of Dafny is available. Would you like to update it?".
Definition NotYetReady : string := "The language provider is not (yet) ready.".

End Strings.

(* ===================================================================== *)
(** * Connection handlers (the server's entry module) *)
(* ===================================================================== *)

Module Server.

Definition MAX_CONNECTION_RETRIES : nat := 30.

(** The parts of the global [provider] the handlers look at. *)
Record DafnyServerProvider : Type := mkProvider {
  referenceProvider : bool;   (* provider.referenceProvider is set *)
  compiler : bool;            (* provider.compiler is set *)
  isRunning : bool            (* provider.dafnyServer.isRunning() *)
}.

(** The loop shared by the handlers that wait:
    [while (cond && tries < max) { await sleep(ms); tries++; }].
    The condition is read from globals that other handlers change
    while this one sleeps, so it is a function of the number of sleeps
    done so far; [remaining] is [max - tries]. The final value of
    [tries] is returned. *)
Fixpoint poll (cond : nat -> bool) (remaining tries : nat) : nat :=
  if cond tries then
    match remaining with
    | O => tries
    | S r => poll cond r (S tries)
    end
  else tries.

(** [provider && provider.referenceProvider]. *)
Definition lensReady (provider : option DafnyServerProvider) : bool :=
  match provider with
  | Some p => referenceProvider p
  | None => false
  end.

(** How the wait of [connection.onCodeLens] ends. *)
Inductive gate : Type :=
| Ready      (* the handler goes on to provide the lenses *)
| Timeout.   (* Promise.reject("The language provider is not (yet) ready.") *)

(** The outcome of the wait, and what it cost. *)
Record waited : Type := mkWaited {
  outcome : gate;
  sleeps : nat;      (* how many times the handler slept *)
  elapsedMs : Z      (* the time it spent sleeping *)
}.

(** The readiness gate of [connection.onCodeLens], with the interval
    and the bound of the loop as parameters; [provider_at k] is the
    global [provider] after [k] sleeps. *)
Definition awaitReady (pollIntervalMs : Z) (maxAttempts : nat)
    (provider_at : nat -> option DafnyServerProvider) : waited :=
  let tries :=
    poll (fun t => negb (lensReady (provider_at t))) maxAttempts 0 in
  {| outcome := if negb (lensReady (provider_at tries)) then Timeout else Ready;
     sleeps := tries;
     elapsedMs := Z.of_nat tries * pollIntervalMs |}.

(** The gate as [connection.onCodeLens] has it: [sleep(2000)], at most
    [MAX_CONNECTION_RETRIES] times. *)
Definition onCodeLens_gate : (nat -> option DafnyServerProvider) -> waited :=
  awaitReady 2000 MAX_CONNECTION_RETRIES.

(** [connection.onRequest(Compile)]: the request is handed to the
    compiler when the provider has one, and rejected on the spot
    otherwise. *)
Definition onRequestCompile {R : Type}
    (provider : option DafnyServerProvider)
    (compile : Promise.t R string) : Promise.t R string :=
  match provider with
  | Some p => if compiler p then compile else Promise.Rejected Strings.NotYetReady
  | None => Promise.Rejected Strings.NotYetReady
  end.

(** [provider && provider.dafnyServer.isRunning()]. *)
Definition stillRunning (provider : option DafnyServerProvider) : bool :=
  match provider with
  | Some p => isRunning p
  | None => false
  end.

(** What the first half of [uninstallDafny] did. *)
Record stopping : Type := mkStopping {
  stopCalled : bool;   (* provider.stop() was called *)
  polls : nat;         (* sleeps of the polling loop *)
  waitedMs : Z         (* all the time spent sleeping *)
}.

(** The first half of [uninstallDafny]: when there is a provider it is
    stopped, the handler sleeps a second and then polls [isRunning]
    once a second, at most [MAX_CONNECTION_RETRIES] times.
    [provider_at k] is the global [provider] at the [k]-th check of
    the loop. *)
Definition stopProvider (provider : option DafnyServerProvider)
    (provider_at : nat -> option DafnyServerProvider) : stopping :=
  match provider with
  | Some _ =>
      let tries :=
        poll (fun t => stillRunning (provider_at t)) MAX_CONNECTION_RETRIES 0 in
      {| stopCalled := true; polls := tries;
         waitedMs := 1000 + Z.of_nat tries * 1000 |}
  | None => {| stopCalled := false; polls := 0; waitedMs := 0 |}
  end.

(** The second half of [uninstallDafny]: [installer] is [None] when
    there is no [dafnyInstaller], and otherwise what its [uninstall]
    does. The promise is rejected without a reason when there is no
    installer. *)
Definition uninstall (installer : option (Promise.completion unit string))
    : Promise.t unit (option string) :=
  match installer with
  | Some (Promise.Return _) => Promise.Fulfilled tt
  | Some (Promise.Throw e) => Promise.Rejected (Some e)
  | None => Promise.Rejected None
  end.

(** The calls [verifyDependencies] makes. *)
Inductive action : Type :=
| Init (serverVersion : string)
| SendNotification (kind message : string).

(** [verifyDependencies], once the probe has settled: the server is
    initialised with the version and an update is offered when the
    installed version is not the latest; a rejection is answered by
    asking whether to install Dafny. [latest] is the promise of
    [dafnyInstaller.latestVersionInstalled]. *)
Definition verifyDependencies
    (probe : Promise.t string DependencyVerifier.reason)
    (latest : Promise.t bool string) : list action :=
  match probe with
  | Promise.Pending => []
  | Promise.Fulfilled serverVersion =>
      Init serverVersion ::
      match latest with
      | Promise.Fulfilled false =>
          [SendNotification Strings.DafnyMissing Strings.DafnyUpdateAvailable]
      | _ => []
      end
  | Promise.Rejected _ =>
      [SendNotification Strings.DafnyMissing Strings.AskInstallDafny]
  end.

(** A provider that comes up, with its reference provider, after
    [n] sleeps of the handler. *)
Definition up_after (n : nat) (k : nat) : option DafnyServerProvider :=
  if (k <? n)%nat then None
  else Some {| referenceProvider := true; compiler := true; isRunning := true |}.

End Server.

(* ===================================================================== *)
(** * The rename provider ([features/renameProvider.ts]) *)
(* ===================================================================== *)

Module RenameProvider.

Section Provider.

(** The types of the editor protocol and of the symbol service. *)
Variables TextDocument Position DafnySymbol Changes Error : Type.

(** A [WorkspaceEdit]; [{}] has no [changes]. *)
Record WorkspaceEdit : Type := mkEdit { changes : option Changes }.

Definition emptyEdit : WorkspaceEdit := {| changes := None |}.

(** The synchronous part of a function: a statement that throws
    ends the function with that exception, and the statements
    after it are not run. *)
Definition andThen {A B : Type} (c : Promise.completion A Error)
    (k : A -> Promise.completion B Error) : Promise.completion B Error :=
  match c with
  | Promise.Return a => k a
  | Promise.Throw e => Promise.Throw e
  end.

(** [new DocumentDecorator(document)], which may throw. The document
    is the one the caller passes: [None] when [documents.get] has
    found none. *)
Variable DocumentDecorator : Type.
Variable newDocumentDecorator :
  option TextDocument -> Promise.completion DocumentDecorator Error.

(** [documentDecorator.getWordAtPosition(position, false)], which
    may throw. *)
Variable getWordAtPosition :
  DocumentDecorator -> Position -> Promise.completion string Error.

(** [this.server.symbolService.getAllSymbols(document)]: the call
    returns a promise, or throws before it returns one. *)
Variable getAllSymbols :
  option TextDocument ->
  Promise.completion (Promise.t (list DafnySymbol) Error) Error.

(** [new WorkSpaceRenameHolder(word, newName, symbols, position)
    .collectRenamings()], which may throw. *)
Variable holderCollectRenamings :
  string -> string -> list DafnySymbol -> Position ->
  Promise.completion Changes Error.

(** [collectRenamings]: a throw of the call of [getAllSymbols]
    leaves the function; a throw inside the callback of [then]
    rejects the promise. Values are nullable: [None] is [null]. *)
Definition collectRenamings (document : option TextDocument)
    (word newName : string) (position : Position)
    : Promise.completion (Promise.t (option WorkspaceEdit) Error) Error :=
  andThen (getAllSymbols document) (fun symbolsPromise =>
  Promise.Return
    (Promise.then1 symbolsPromise
       (fun symbols =>
          match holderCollectRenamings word newName symbols position with
          | Promise.Return c => Promise.Return (Some {| changes := Some c |})
          | Promise.Throw e => Promise.Throw e
          end))).

(** [provideRenameInternal]: the decorator is built and the word
    read before [catch] is attached to the promise of
    [collectRenamings]. *)
Definition provideRenameInternal (newName : string)
    (document : option TextDocument) (position : Position)
    : Promise.completion (Promise.t (option WorkspaceEdit) Error) Error :=
  andThen (newDocumentDecorator document) (fun documentDecorator =>
  andThen (getWordAtPosition documentDecorator position) (fun word =>
  andThen (collectRenamings document word newName position) (fun renamings =>
  Promise.Return
    (Promise.catch renamings (fun e => Promise.Return (Some emptyEdit)))))).

(** The two handlers [provideRenameEdits] passes to [then]. *)
Definition onDefinitionInfo (definitionInfo : option WorkspaceEdit)
    : Promise.completion (option WorkspaceEdit) Error :=
  match definitionInfo with
  | Some d => Promise.Return (Some d)
  | None => Promise.Return None
  end.

Definition onRenameError (err : Error)
    : Promise.completion (option WorkspaceEdit) Error :=
  Promise.Return None.

(** [provideRenameEdits]: the promise it returns, or the exception
    it throws when [provideRenameInternal] does. *)
Definition provideRenameEdits (document : option TextDocument)
    (position : Position) (newName : string)
    : Promise.completion (Promise.t (option WorkspaceEdit) Error) Error :=
  andThen (provideRenameInternal newName document position) (fun internal =>
  Promise.Return (Promise.then2 internal onDefinitionInfo onRenameError)).

End Provider.

(** A decorator for the examples: it is the text of the document, and
    cannot be built without a document. *)
Definition sampleDecorator (document : option string)
    : Promise.completion string string :=
  match document with
  | Some text => Promise.Return text
  | None => Promise.Throw "TypeError: document is undefined"
  end.

Arguments emptyEdit {Changes}.
Arguments changes {Changes} _.

End RenameProvider.

(* ===================================================================== *)
(** * The verification backend: framer, dispatcher, supervisor *)
(* ===================================================================== *)

Module Backend.

(** The enumeration [VerificationStatus]. *)
Inductive VerificationStatus : Type :=
| Verified       (* = 0 *)
| NotVerified    (* = 1 *)
| Failed.        (* = 2 *)

(** The interface [VerificationResult]; [counterModel] has type
    [any]. *)
Record VerificationResult : Type := mkResult {
  verificationStatus : VerificationStatus;
  proofObligations : Z;
  errorCount : Z;
  crashed : bool;
  counterModel : option string
}.

(** Modelled from the spec: the states of the supervisor (section 3,
    data model), which the sources at hand do not declare. *)
Inductive SupervisorState : Type :=
| Stopped | Starting | Idle | Busy | Crashed.

(** Modelled from the spec: the operations a request asks for
    (section 3), not declared in the sources at hand. *)
Inductive Operation : Type :=
| Verify | CounterExample | Compile | DotGraph | VersionProbe.

(** Modelled from the spec: a verification request (section 3), not
    declared in the sources at hand. *)
Record VerificationRequest : Type := mkRequest {
  caller : nat;        (* whose future the result resolves *)
  uri : string;
  text : string;       (* snapshot of the document *)
  operation : Operation
}.

Section Protocol.

(** The two sentinels that end a response. *)
Variables successMarker failureMarker : string.

(** How the payload before the sentinel is read: the proof
    obligation count and the error count, and the counter model if
    there is one. The specification leaves the payload format open. *)
Variable parseCounts : string -> Z * Z.
Variable parseCounterModel : string -> option string.

(** Modelled from the spec: the scan of a buffer for a marker
    (section 4.2); the scanning code is not among the sources. *)
Definition contains (pat s : string) : bool :=
  match String.index 0 pat s with
  | Some _ => true
  | None => false
  end.

(** Modelled from the spec: a buffer holds a terminator when it
    holds the success or the failure sentinel (section 4.2). *)
Definition hasTerminator (buffer : string) : bool :=
  contains successMarker buffer || contains failureMarker buffer.

(** Modelled from the spec: the encoder (sections 4.2 and 6), which
    writes [<verb><space><argument-blob>] and passes the payload
    through as it is. *)
Definition encode (verb payload : string) : string :=
  verb ++ " " ++ payload.

(** Modelled from the spec: the verbs of the wire protocol
    (sections 1 and 6). *)
Definition verbOf (op : Operation) : string :=
  match op with
  | Verify => "verify"
  | CounterExample => "counter-example"
  | Compile => "compile"
  | DotGraph => "dot-graph"
  | VersionProbe => "version"
  end.

(** Modelled from the spec: a request is written as its verb and
    the text of its document (section 6). *)
Definition encodeRequest (r : VerificationRequest) : string :=
  encode (verbOf (operation r)) (text r).

(** Modelled from the spec: what the framer answers (section 4.2),
    a completed frame or "more data needed". *)
Inductive fed : Type :=
| MoreDataNeeded
| Frame (raw : string).

(** Modelled from the spec: the response framer (section 4.2), whose
    code is not among the sources. [feed] appends the chunk to the
    accumulation buffer and scans the buffer for a terminator; when
    there is one the content of the buffer is the frame and the
    buffer is cleared, otherwise more data is needed and the buffer
    is kept. *)
Definition feed (buffer chunk : string) : fed * string :=
  let buffer' := buffer ++ chunk in
  if hasTerminator buffer' then (Frame buffer', "") else (MoreDataNeeded, buffer').

(** Modelled from the spec: [feed] called on one chunk after the
    other; the frames completed, in order, and the buffer left. *)
Fixpoint feedAll (chunks : list string) (buffer : string)
    : list string * string :=
  match chunks with
  | [] => ([], buffer)
  | c :: cs =>
      match feed buffer c with
      | (Frame raw, b) => let (fs, b') := feedAll cs b in (raw :: fs, b')
      | (MoreDataNeeded, b) => feedAll cs b
      end
  end.

(** Modelled from the spec: the classification of a frame (section
    4.3): a frame with the success marker carries the counts read
    from its payload and is [Verified] when it reports no error; any
    other frame is a failure. A frame never is a crash. *)
Definition classify (frame : string) : VerificationResult :=
  if contains successMarker frame then
    let (obligations, errors) := parseCounts frame in
    {| verificationStatus := if errors =? 0 then Verified else NotVerified;
       proofObligations := obligations;
       errorCount := errors;
       crashed := false;
       counterModel := parseCounterModel frame |}
  else
    {| verificationStatus := Failed;
       proofObligations := 0;
       errorCount := 0;
       crashed := false;
       counterModel := None |}.

(** Modelled from the spec: the result a request is resolved with
    when the backend crashes or is stopped under it (sections 4.1,
    5 and 7). *)
Definition crashResult : VerificationResult :=
  {| verificationStatus := Failed;
     proofObligations := 0;
     errorCount := 0;
     crashed := true;
     counterModel := None |}.

(** Modelled from the spec: the supervisor and the dispatcher
    (sections 3, 4.1 and 4.3). The supervisor owns at most one
    process; the queue holds the pending requests, oldest first; at
    most one request is in flight. What was written to the backend,
    the results delivered to the callers and the requests refused
    with [NotReady] are kept in the order they happened. *)
Record state : Type := mkState {
  supervisor : SupervisorState;
  process : option nat;
  queue : list VerificationRequest;
  inFlight : option VerificationRequest;
  buffer : string;
  written : list string;
  delivered : list (VerificationRequest * VerificationResult);
  refused : list VerificationRequest;
  leaked : list nat
}.

(** Modelled from the spec: work is accepted when the supervisor is
    idle or busy (section 4.3). *)
Definition accepts (st : state) : bool :=
  match supervisor st with
  | Idle | Busy => true
  | _ => false
  end.

(** Modelled from the spec: one turn of the dispatch loop (section
    4.3). When the supervisor is idle the oldest request is popped,
    encoded and written, and the supervisor is busy until its frame
    arrives. *)
Definition dispatch (st : state) : state :=
  match supervisor st, queue st with
  | Idle, r :: q =>
      {| supervisor := Busy; process := process st; queue := q;
         inFlight := Some r; buffer := buffer st;
         written := written st ++ [encodeRequest r];
         delivered := delivered st; refused := refused st;
         leaked := leaked st |}
  | _, _ => st
  end.

(** Modelled from the spec: what [submit] answers at once. *)
Inductive submitted : Type :=
| Accepted
| NotReady.

(** Modelled from the spec: the queue is first in, first out. *)
Definition enqueue (r : VerificationRequest) (st : state) : state :=
  {| supervisor := supervisor st; process := process st;
     queue := queue st ++ [r];
     inFlight := inFlight st; buffer := buffer st;
     written := written st; delivered := delivered st;
     refused := refused st; leaked := leaked st |}.

(** Modelled from the spec: a refused request is not queued. *)
Definition refuse (r : VerificationRequest) (st : state) : state :=
  {| supervisor := supervisor st; process := process st;
     queue := queue st; inFlight := inFlight st; buffer := buffer st;
     written := written st; delivered := delivered st;
     refused := refused st ++ [r]; leaked := leaked st |}.

(** Modelled from the spec: [submit] (section 4.3). The request is
    queued when the supervisor is idle or busy, and fails with
    [NotReady] otherwise. *)
Definition submit (r : VerificationRequest) (st : state) : submitted * state :=
  if accepts st then (Accepted, dispatch (enqueue r st))
  else (NotReady, refuse r st).

(** Modelled from the spec: the request in flight, if any, is
    resolved with [res]; the supervisor goes to [next] and the buffer
    is [b]. *)
Definition retire (res : VerificationResult) (next : SupervisorState)
    (b : string) (st : state) : state :=
  {| supervisor := next; process := process st; queue := queue st;
     inFlight := None; buffer := b; written := written st;
     delivered :=
       match inFlight st with
       | Some r => delivered st ++ [(r, res)]
       | None => delivered st
       end;
     refused := refused st; leaked := leaked st |}.

(** Modelled from the spec: the buffer after a call of [feed]. *)
Definition keep (b : string) (st : state) : state :=
  {| supervisor := supervisor st; process := process st;
     queue := queue st; inFlight := inFlight st; buffer := b;
     written := written st; delivered := delivered st;
     refused := refused st; leaked := leaked st |}.

(** Modelled from the spec: output of the backend (section 4.3).
    The chunk is fed to the framer; a completed frame is classified
    and resolves the request in flight, the supervisor is idle again
    and the loop goes on. *)
Definition output (chunk : string) (st : state) : state :=
  match feed (buffer st) chunk with
  | (MoreDataNeeded, b) => keep b st
  | (Frame raw, b) =>
      match supervisor st with
      | Busy => dispatch (retire (classify raw) Idle b st)
      | _ => keep b st
      end
  end.

(** Modelled from the spec: the process is destroyed once its exit
    has been processed (section 3). *)
Definition dropProcess (st : state) : state :=
  {| supervisor := supervisor st; process := None;
     queue := queue st; inFlight := inFlight st; buffer := buffer st;
     written := written st; delivered := delivered st;
     refused := refused st; leaked := leaked st |}.

(** Modelled from the spec: the backend crashed (section 4.1). The
    request in flight is resolved with [crashed = true] and the
    supervisor is [Crashed]. *)
Definition crash (st : state) : state :=
  dropProcess (retire crashResult Crashed "" st).

(** Modelled from the spec: the process exited (section 4.1), which
    is a crash when the code is not zero and the supervisor was not
    stopped. *)
Definition exited (code : Z) (st : state) : state :=
  match supervisor st with
  | Stopped => dropProcess st
  | _ => if code =? 0 then dropProcess st else crash st
  end.

(** Modelled from the spec: a failed write to the backend's standard
    input is treated as an exit (section 4.1). *)
Definition writeFailed (st : state) : state :=
  match supervisor st with
  | Stopped => st
  | _ => crash st
  end.

(** Modelled from the spec: what [start] answers. *)
Inductive started : Type :=
| Spawned
| SpawnError.

(** Modelled from the spec: [start] (section 4.1). [launched] is the
    process the operating system gave, or [None] when the executable
    could not be launched. *)
Definition start (launched : option nat) (st : state) : started * state :=
  match launched with
  | None => (SpawnError, st)
  | Some pid =>
      match supervisor st with
      | Stopped | Crashed =>
          (Spawned,
           {| supervisor := Starting; process := Some pid;
              queue := queue st; inFlight := inFlight st; buffer := "";
              written := written st; delivered := delivered st;
              refused := refused st; leaked := leaked st |})
      | _ => (Spawned, st)
      end
  end.

(** Modelled from the spec: the version handshake completed, and
    the supervisor is idle (section 4.1). *)
Definition handshake (st : state) : state :=
  match supervisor st with
  | Starting =>
      dispatch
        {| supervisor := Idle; process := process st;
           queue := queue st; inFlight := inFlight st; buffer := buffer st;
           written := written st; delivered := delivered st;
           refused := refused st; leaked := leaked st |}
  | _ => st
  end.

(** Modelled from the spec: what [stop] comes to. The grace period
    is the wait of [uninstallDafny]: a second, and then a poll every
    second, at most [MAX_CONNECTION_RETRIES] times. *)
Record stopped : Type := mkStopped {
  after : state;
  quitSent : bool;
  graceMs : Z
}.

(** Modelled from the spec: [stop] (sections 4.1 and 5), which
    stands for the [provider.stop()] that is not among the sources.
    Nothing happens without a live process; otherwise the quit
    command is written, the request in flight is resolved as
    crashed, the process is given the grace period to exit and its
    handle is dropped, as leaked when it still runs.
    [running_at k] tells whether the process still runs at the
    [k]-th poll. *)
Definition stop (running_at : nat -> bool) (st : state) : stopped :=
  match process st with
  | None => {| after := st; quitSent := false; graceMs := 0 |}
  | Some pid =>
      let tries := Server.poll running_at Server.MAX_CONNECTION_RETRIES 0 in
      let st1 := retire crashResult Stopped "" st in
      {| after :=
           {| supervisor := Stopped; process := None;
              queue := queue st1; inFlight := None; buffer := "";
              written := written st1 ++ [encode "quit" ""];
              delivered := delivered st1; refused := refused st1;
              leaked := if running_at tries then pid :: leaked st1
                        else leaked st1 |};
         quitSent := true;
         graceMs := 1000 + Z.of_nat tries * 1000 |}
  end.

(** Modelled from the spec: what happens to a supervisor. *)
Inductive event : Type :=
| Submit (r : VerificationRequest)
| Output (chunk : string)
| Exited (code : Z)
| WriteFailed
| Start (launched : option nat)
| Handshake
| Stop (running_at : nat -> bool).

(** Modelled from the spec: the supervisor after an event. *)
Definition step (ev : event) (st : state) : state :=
  match ev with
  | Submit r => snd (submit r st)
  | Output chunk => output chunk st
  | Exited code => exited code st
  | WriteFailed => writeFailed st
  | Start launched => snd (start launched st)
  | Handshake => handshake st
  | Stop running_at => after (stop running_at st)
  end.

(** Modelled from the spec: the supervisor after a trace. *)
Definition run (evs : list event) (st : state) : state :=
  fold_left (fun s ev => step ev s) evs st.

(** Modelled from the spec: a supervisor whose backend [pid] runs
    and waits for work. *)
Definition idle (pid : nat) : state :=
  {| supervisor := Idle; process := Some pid; queue := [];
     inFlight := None; buffer := ""; written := []; delivered := [];
     refused := []; leaked := [] |}.

(** Modelled from the spec: the requests not yet retired, oldest
    first. *)
Definition pending (st : state) : list VerificationRequest :=
  match inFlight st with
  | Some r => r :: queue st
  | None => queue st
  end.

(** Modelled from the spec: the requests a trace submits. *)
Definition submissions (evs : list event) : list VerificationRequest :=
  flat_map (fun ev => match ev with Submit r => [r] | _ => [] end) evs.

(** Modelled from the spec: the events that start the backend. *)
Definition isStart (ev : event) : bool :=
  match ev with Start _ => true | _ => false end.

(** Modelled from the spec: submissions and backend output. *)
Definition isTraffic (ev : event) : bool :=
  match ev with Submit _ | Output _ => true | _ => false end.

(** Modelled from the spec: the backend [pid] works on [r] while [q]
    waits. *)
Definition serving (pid : nat) (r : VerificationRequest)
    (q : list VerificationRequest) (w : list string)
    (d : list (VerificationRequest * VerificationResult)) : state :=
  {| supervisor := Busy; process := Some pid; queue := q;
     inFlight := Some r; buffer := ""; written := w; delivered := d;
     refused := []; leaked := [] |}.

(** Modelled from the spec: the backend [pid] has nothing to do. *)
Definition resting (pid : nat) (w : list string)
    (d : list (VerificationRequest * VerificationResult)) : state :=
  {| supervisor := Idle; process := Some pid; queue := [];
     inFlight := None; buffer := ""; written := w; delivered := d;
     refused := []; leaked := [] |}.

(** Modelled from the spec: the dispatcher is either idle with
    nothing pending, or busy with a request in flight. *)
Definition orderly (st : state) : Prop :=
  (supervisor st = Idle /\ inFlight st = None /\ queue st = []) \/
  (supervisor st = Busy /\ inFlight st <> None).

End Protocol.

(** Some proper, non-empty suffix of [m] is a prefix of [q]: an
    occurrence of [m] could then straddle the end of a text and the
    beginning of [q]. *)
Fixpoint overlaps (m q : string) : bool :=
  match m with
  | EmptyString => false
  | String _ m' =>
      (negb (String.eqb m' EmptyString) && String.prefix m' q) || overlaps m' q
  end.

(** A reader of payloads for the examples: one proof obligation, and
    one error when the payload mentions one. *)
Definition sampleCounts (frame : string) : Z * Z :=
  (1, if contains "error" frame then 1 else 0).

Definition sampleRequest (who : nat) (document : string) : VerificationRequest :=
  {| caller := who; uri := document; text := "method m() {}";
     operation := Verify |}.

(** Modelled from the spec: the success sentinel as the
    specification writes it. *)
Definition SUCCESS_MARKER : string := "SUCCESS-MARKER".

(** Modelled from the spec: the failure sentinel as the
    specification writes it. *)
Definition FAILURE_MARKER : string := "FAILURE-MARKER".

End Backend.

(* ===================================================================== *)
(** * More JavaScript string primitives *)
(* ===================================================================== *)

Module JSStrings.

Import JS.

(** The greatest index at which [pat] occurs in [s]. *)
Fixpoint lastIndex (pat s : string) : option nat :=
  match s with
  | EmptyString => if String.prefix pat EmptyString then Some 0%nat else None
  | String a s' =>
      match lastIndex pat s' with
      | Some k => Some (S k)
      | None => if String.prefix pat s then Some 0%nat else None
      end
  end.

(** [s.lastIndexOf(pat)]: the index of the last occurrence, or [-1]. *)
Definition lastIndexOf (s pat : string) : Z :=
  match lastIndex pat s with
  | Some k => Z.of_nat k
  | None => -1
  end.

(** [s.substr(start, length)]: a negative start counts from the end,
    and the length is cut to what is left of the string. *)
Definition substr (s : string) (start length : Z) : string :=
  let size := len s in
  let from := if start <? 0 then Z.max (size + start) 0 else Z.min start size in
  let count := Z.min (Z.max length 0) (size - from) in
  if count <=? 0 then EmptyString
  else String.substring (Z.to_nat from) (Z.to_nat count) s.

(** The text of all chunks, in order. *)
Definition joined (chunks : list string) : string :=
  fold_right append EmptyString chunks.

End JSStrings.

(* ===================================================================== *)
(** * The code lens provider ([features/baseCodeLensProvider.ts]) *)
(* ===================================================================== *)

Module BaseCodeLensProvider.

Section Provider.

(** The symbols of the symbol service and its errors. *)
Variables DafnySymbol Error : Type.

(** [info.needsCodeLens()]. *)
Variable needsCodeLens : DafnySymbol -> bool.

(** The error raised by reading [.symbols] of [undefined]. *)
Variable typeError : Error.

(** The part of a [TextDocument] the provider reads. *)
Record TextDocument : Type := mkDocument { uri : string }.

(** A [SymbolTable]. *)
Record SymbolTable : Type := mkTable {
  fileName : string;
  symbols : list DafnySymbol
}.

(** [new ReferencesCodeLens(info)]. *)
Record ReferencesCodeLens : Type := mkLens { info : DafnySymbol }.

(** [this.server.symbolService.getSymbols(document)]. *)
Variable getSymbols : TextDocument -> Promise.t (list SymbolTable) Error.

(** The handler passed to [then]: the table of the document is
    looked for with [find], which gives [undefined] when there is
    none, and reading its symbols then throws. *)
Definition lensesOf (document : TextDocument) (symbolTables : list SymbolTable)
    : Promise.completion (list ReferencesCodeLens) Error :=
  match
    List.find (fun table => String.eqb (fileName table) (uri document))
      symbolTables
  with
  | Some table =>
      Promise.Return (map mkLens (filter needsCodeLens (symbols table)))
  | None => Promise.Throw typeError
  end.

(** [provideCodeLenses]; a missing document is [None]. *)
Definition provideCodeLenses (enabled : bool) (document : option TextDocument)
    : Promise.t (list ReferencesCodeLens) Error :=
  match document with
  | None => Promise.Fulfilled []
  | Some d =>
      if negb enabled then Promise.Fulfilled []
      else
        Promise.catch (Promise.then1 (getSymbols d) (lensesOf d))
          (fun err => Promise.Return [])
  end.

End Provider.

Arguments uri : clear implicits.
Arguments mkLens {DafnySymbol} info.
Arguments info {DafnySymbol} _.
Arguments mkTable {DafnySymbol} fileName symbols.
Arguments fileName {DafnySymbol} _.
Arguments symbols {DafnySymbol} _.

End BaseCodeLensProvider.

(* ===================================================================== *)
(** * The null check generator
      ([features/codeActions/nullCommandGenerator.ts]) *)
(* ===================================================================== *)

Module NullCommandGenerator.

Import JS JSStrings.

(** The character that separates a qualifier from a member name. *)
Definition dot : ascii := "."%char.

(** [removeMemberAcces]: the designator up to its last dot, when that
    dot is not its first character. *)
Definition removeMemberAcces (designator : string) : string :=
  if lastIndexOf designator "." >? 0
  then substr designator 0 (lastIndexOf designator ".")
  else designator.

Section Generator.

(** The types of the editor protocol and of the symbol service. *)
Variables Position Range DafnySymbol DocId Error : Type.

(** [DafnyReports.NullWarning], [Commands.EditTextCommand] and the
    line end [EOL] of the platform. *)
Variables NullWarning EditTextCommand EOL : string.

(** [TextEdit.insert(position, newText)]. *)
Record TextEdit : Type := mkTextEdit {
  position : Position;
  newText : string
}.

(** [Command.create(title, command, uri, docId, edits)]. *)
Record Command : Type := mkCommand {
  title : string;
  command : string;
  argUri : string;
  argDocId : DocId;
  argEdits : list TextEdit
}.

(** What [findInsertionPosition] gives: nothing, the dummy position
    of the generator, or a position of the document. *)
Inductive insertion : Type :=
| Nowhere
| Dummy
| At (p : Position).

(** The generator's diagnostic, document and fields. *)
Variable message : string.       (* this.diagnostic.message *)
Variable range : Range.          (* this.diagnostic.range *)
Variable uri : string.           (* this.uri *)
Variable dummyDocId : DocId.     (* this.dummyDocId *)

(** [parseExpressionWhichMayBeNull(this.diagnostic.range.start)]. *)
Variable expression : string.

(** [this.server.symbolService.getAllSymbols(this.doc)]. *)
Variable getAllSymbols : Promise.t (list DafnySymbol) Error.

(** [methodAt(symbols, range)] and [this.findInsertionPosition]. *)
Variable methodAt : list DafnySymbol -> Range -> option DafnySymbol.
Variable findInsertionPosition : option DafnySymbol -> insertion.

Definition parseDesignator : string := removeMemberAcces expression.

Definition nullCheckMessage (designator : string) : string :=
  "requires " ++ designator ++ " != null".

(** [buildNullCheckCommand]: the command is pushed on
    [this.commands]. *)
Definition buildNullCheckCommand (insertPosition : Position)
    (designator : string) (commands : list Command) : list Command :=
  let edit :=
    {| position := insertPosition;
       newText := " " ++ nullCheckMessage designator ++ EOL |} in
  (commands ++
   [{| title := "Add null check: " ++ nullCheckMessage designator;
       command := EditTextCommand;
       argUri := uri;
       argDocId := dummyDocId;
       argEdits := [edit] |}])%list.

Definition addNecessaryNullCheck (symbols : list DafnySymbol)
    (designator : string) (commands : list Command) : list Command :=
  let definingMethod := methodAt symbols range in
  match findInsertionPosition definingMethod with
  | At insertPosition => buildNullCheckCommand insertPosition designator commands
  | Nowhere | Dummy => commands
  end.

(** [calculateCommands], for a generator whose [this.commands] is
    [commands]. *)
Definition calculateCommands (commands : list Command)
    : Promise.t (list Command) Error :=
  if indexOf message NullWarning 0 >? -1 then
    let designator := parseDesignator in
    if negb (String.eqb designator EmptyString) then
      Promise.catch
        (Promise.then1 getAllSymbols
           (fun symbols =>
              Promise.Return
                (addNecessaryNullCheck symbols designator commands)))
        (fun err => Promise.Return [])
    else Promise.Fulfilled commands
  else Promise.Fulfilled commands.

End Generator.

Arguments At {Position} p.
Arguments Nowhere {Position}.
Arguments Dummy {Position}.

End NullCommandGenerator.

(* ===================================================================== *)
(** * More connection handlers (the server's entry module) *)
(* ===================================================================== *)

Module Handlers.

(** ** Configuration changes *)

Section Configuration.

Variable Settings : Type.

(** The globals [settings] and [started], and the number of times
    [verifyDependencies] was called. *)
Record globals : Type := mkGlobals {
  settings : option Settings;
  started : bool;
  probes : nat
}.

(** The globals when the server starts. *)
Definition initially : globals :=
  {| settings := None; started := false; probes := 0 |}.

(** [connection.onDidChangeConfiguration]. *)
Definition onDidChangeConfiguration (change : Settings) (g : globals) : globals :=
  if negb (started g) then
    {| settings := Some change; started := true; probes := S (probes g) |}
  else
    {| settings := Some change; started := started g; probes := probes g |}.

Definition configure (changes : list Settings) (g : globals) : globals :=
  fold_left (fun g change => onDidChangeConfiguration change g) changes g.

End Configuration.

Arguments settings {Settings} _.
Arguments started {Settings} _.
Arguments probes {Settings} _.

(** ** Rename requests *)

(** Why a request is rejected: the text passed to [Promise.reject],
    the [Error] a handler throws, or the reason of the promise it
    awaited. *)
Inductive rejection (Error : Type) : Type :=
| Refused (text : string)
| Thrown (text : string)
| Passed (e : Error).
Arguments Refused {Error} text.
Arguments Thrown {Error} text.
Arguments Passed {Error} e.

Definition NotReadyText : string := "The language provider was not ready".

Section Rename.

Variables TextDocument Position DafnySymbol Changes Error : Type.
Variable DocumentDecorator : Type.
Variable newDocumentDecorator :
  option TextDocument -> Promise.completion DocumentDecorator Error.
Variable getWordAtPosition :
  DocumentDecorator -> Position -> Promise.completion string Error.
Variable getAllSymbols :
  option TextDocument ->
  Promise.completion (Promise.t (list DafnySymbol) Error) Error.
Variable holderCollectRenamings :
  string -> string -> list DafnySymbol -> Position ->
  Promise.completion Changes Error.

(** The text of the error thrown for a [null] edit. *)
Variable couldNotPrepare : string -> Position -> string.

(** [connection.onRenameRequest], an [async] function: [ready] is
    [provider && provider.renameProvider] and [document] what
    [documents.get(handler.textDocument.uri)] gives, [None] when it
    knows no such document. The edit is awaited and a [null] edit
    is thrown as an error; what [provideRenameEdits] throws rejects
    the request, as does what the handler throws itself. *)
Definition onRenameRequest (ready : bool) (document : option TextDocument)
    (position : Position) (newName : string)
    : Promise.t (RenameProvider.WorkspaceEdit Changes) (rejection Error) :=
  if ready then
    match
      RenameProvider.provideRenameEdits TextDocument Position DafnySymbol
        Changes Error DocumentDecorator newDocumentDecorator
        getWordAtPosition getAllSymbols holderCollectRenamings
        document position newName
    with
    | Promise.Throw e => Promise.Rejected (Passed e)
    | Promise.Return Promise.Pending => Promise.Pending
    | Promise.Return (Promise.Fulfilled None) =>
        Promise.Rejected (Thrown (couldNotPrepare newName position))
    | Promise.Return (Promise.Fulfilled (Some workspaceEdit)) =>
        Promise.Fulfilled workspaceEdit
    | Promise.Return (Promise.Rejected e) => Promise.Rejected (Passed e)
    end
  else Promise.Rejected (Refused NotReadyText).

End Rename.

(** ** Code lenses *)

Section Lenses.

(** [ReferencesCodeLens], [CodeLens] and the errors of the reference
    provider. *)
Variables Lens CodeLens Error : Type.

(** [getCodeLens] and [JSON.stringify]. *)
Variable getCodeLens : Lens -> CodeLens.
Variable stringify : CodeLens -> string.

(** The global [codeLenses], an object used as a map from strings
    to lenses: the bindings made, the latest first. *)
Definition table : Type := list (string * Lens).

(** [codeLenses[key]]. *)
Fixpoint lookup (key : string) (t : table) : option Lens :=
  match t with
  | [] => None
  | (k, lens) :: t' => if String.eqb k key then Some lens else lookup key t'
  end.

(** [codeLenses[JSON.stringify(getCodeLens(lens))] = lens]. *)
Definition remember (t : table) (lens : Lens) : table :=
  (stringify (getCodeLens lens), lens) :: t.

(** [lenses.forEach(...)]. *)
Definition rememberAll (lenses : list Lens) (t : table) : table :=
  fold_left remember lenses t.

(** [connection.onCodeLens] after its wait: [gate] is how the wait
    ended and [lenses] the promise of [provideCodeLenses]. The
    promise of the handler and the table it leaves. *)
Definition onCodeLens (gate : Server.gate)
    (lenses : Promise.t (list Lens) Error) (t : table)
    : Promise.t (list Lens) (rejection Error) * table :=
  match gate with
  | Server.Timeout => (Promise.Rejected (Refused Strings.NotYetReady), t)
  | Server.Ready =>
      match lenses with
      | Promise.Pending => (Promise.Pending, t)
      | Promise.Rejected e => (Promise.Rejected (Passed e), t)
      | Promise.Fulfilled ls => (Promise.Fulfilled ls, rememberAll ls t)
      end
  end.

(** [provider.referenceProvider.resolveCodeLens(item)]; [None] is
    [null]. *)
Variable resolveCodeLens : Lens -> Promise.t (option CodeLens) Error.

(** The text of the error thrown for a [null] lens. *)
Variable couldNotResolve : CodeLens -> Lens -> string.

(** [connection.onCodeLensResolve]. *)
Definition onCodeLensResolve (provider : option Server.DafnyServerProvider)
    (handler : CodeLens) (t : table) : Promise.t CodeLens (rejection Error) :=
  if Server.lensReady provider then
    match lookup (stringify handler) t with
    | Some item =>
        match resolveCodeLens item with
        | Promise.Pending => Promise.Pending
        | Promise.Fulfilled None =>
            Promise.Rejected (Thrown (couldNotResolve handler item))
        | Promise.Fulfilled (Some newLocal) => Promise.Fulfilled newLocal
        | Promise.Rejected e => Promise.Rejected (Passed e)
        end
    | None => Promise.Rejected (Refused Strings.NotYetReady)
    end
  else Promise.Rejected (Refused Strings.NotYetReady).

End Lenses.

(** ** Installation *)

(** The global [dafnyInstaller]: what its [uninstall] does and the
    promise of its [install]. *)
Record DafnyInstaller : Type := mkInstaller {
  uninstalling : Promise.completion unit string;
  installing : Promise.t string string
}.

(** What the install request did besides settling its promise. *)
Record installed : Type := mkInstalled {
  answer : Promise.t string (option string);
  basePath : option string;      (* settings.dafny.basePath, when set *)
  verifications : nat            (* calls of verifyDependencies *)
}.

(** [connection.onRequest(Install)]: the executor of the promise is
    an [async] function, so that a rejection it awaits ends it
    without settling the promise. [before] is the installer when
    [uninstallDafny] looks at it and [later] the installer when the
    handler does, after the wait of [uninstallDafny]. *)
Definition onRequestInstall (before later : option DafnyInstaller) : installed :=
  match Server.uninstall (option_map uninstalling before) with
  | Promise.Fulfilled _ =>
      match later with
      | Some installer =>
          match installing installer with
          | Promise.Fulfilled path =>
              {| answer := Promise.Fulfilled path;
                 basePath := Some path;
                 verifications := 1 |}
          | _ => {| answer := Promise.Pending; basePath := None; verifications := 0 |}
          end
      | None =>
          {| answer := Promise.Rejected None; basePath := None; verifications := 0 |}
      end
  | _ => {| answer := Promise.Pending; basePath := None; verifications := 0 |}
  end.

(** ** Uninstallation *)

(** [uninstallDafny]: the provider is stopped and waited for, and
    then, whether or not it still runs, the installer uninstalls. *)
Definition uninstallDafny (provider : option Server.DafnyServerProvider)
    (provider_at : nat -> option Server.DafnyServerProvider)
    (installer : option DafnyInstaller)
    : Server.stopping * Promise.t unit (option string) :=
  (Server.stopProvider provider provider_at,
   Server.uninstall (option_map uninstalling installer)).

(** A provider whose server stops running after [n] polls. *)
Definition runs_until (n : nat) (k : nat) : option Server.DafnyServerProvider :=
  Some {| Server.referenceProvider := true; Server.compiler := true;
          Server.isRunning := (k <? n)%nat |}.

End Handlers.

(* ===================================================================== *)
(** * Traces of the version probe *)
(* ===================================================================== *)

Module ProbeTrace.

Import DependencyVerifier.

(** The output chunks among the events, in order. *)
Definition chunks (evs : list event) : list string :=
  flat_map (fun ev => match ev with Data chunk => [chunk] | _ => [] end) evs.

(** The events that are no failure. *)
Definition quiet (ev : event) : bool :=
  match failure ev with
  | None => true
  | Some _ => false
  end.

End ProbeTrace.
(* ===================================================================== *)
(** * Facts about strings *)
(* ===================================================================== *)

Module StrFacts.

Import JS.

Lemma length_app (s t : string) :
  String.length (s ++ t) = (String.length s + String.length t)%nat.
Proof. induction s as [|a s IH]; simpl; [reflexivity | now rewrite IH]. Qed.

Lemma app_assoc (s t u : string) : (s ++ t) ++ u = s ++ t ++ u.
Proof. induction s as [|a s IH]; simpl; [reflexivity | now rewrite IH]. Qed.

Lemma app_empty_r (s : string) : s ++ "" = s.
Proof. induction s as [|a s IH]; simpl; [reflexivity | now rewrite IH]. Qed.

Lemma substring_skip (pre s : string) (n m : nat) :
  String.substring (String.length pre + n) m (pre ++ s)
  = String.substring n m s.
Proof. induction pre as [|a pre IH]; simpl; [reflexivity | apply IH]. Qed.

Lemma substring_prefix (v t : string) :
  String.substring 0 (String.length v) (v ++ t) = v.
Proof.
  induction v as [|a v IH]; simpl.
  - destruct t; reflexivity.
  - now rewrite IH.
Qed.

Lemma substring_all (s : string) :
  String.substring 0 (String.length s) s = s.
Proof.
  rewrite <- (app_empty_r s) at 2. apply substring_prefix.
Qed.

Lemma occurs_at_middle (pre pat rest : string) :
  occurs_at pat (pre ++ pat ++ rest) (String.length pre).
Proof.
  unfold occurs_at.
  rewrite <- (Nat.add_0_r (String.length pre)), substring_skip.
  apply substring_prefix.
Qed.

(** Searching from the end of a prefix is searching what follows it. *)
Lemma index_skip (pre pat s : string) (n : nat) :
  String.index (String.length pre + n) pat (pre ++ s)
  = option_map (fun k => (String.length pre + k)%nat) (String.index n pat s).
Proof.
  induction pre as [|a pre IH]; simpl.
  - destruct (String.index n pat s); reflexivity.
  - rewrite IH. destruct (String.index n pat s); reflexivity.
Qed.

(** The first occurrence of a pattern is where [index] finds it. *)
Lemma index_first (pre pat rest : string) :
  pat <> "" ->
  (forall k, (k < String.length pre)%nat ->
             ~ occurs_at pat (pre ++ pat ++ rest) k) ->
  String.index 0 pat (pre ++ pat ++ rest) = Some (String.length pre).
Proof.
  intros Hne Hfirst.
  pose proof (occurs_at_middle pre pat rest) as Hocc.
  destruct (String.index 0 pat (pre ++ pat ++ rest)) as [m|] eqn:E.
  - f_equal.
    destruct (Nat.lt_trichotomy m (String.length pre)) as [Hlt|[Heq|Hgt]].
    + exfalso. apply (Hfirst m Hlt). exact (index_correct1 _ _ _ _ E).
    + exact Heq.
    + exfalso.
      apply (index_correct2 _ _ _ _ E (String.length pre)); [lia | exact Hgt | exact Hocc].
  - exfalso.
    apply (index_correct3 0 (String.length pre) _ _ E Hne); [lia | exact Hocc].
Qed.

Lemma prefix_char (c a : ascii) (s : string) :
  String.prefix (String c "") (String a s) = Ascii.eqb a c.
Proof.
  simpl. destruct (ascii_dec c a) as [->|Hn].
  - rewrite Ascii.eqb_refl. now destruct s.
  - symmetry. apply Ascii.eqb_neq. congruence.
Qed.

(** A character is found right after a run that is free of it. *)
Lemma index_char_after (c : ascii) (u rest : string) :
  free_of c u = true ->
  String.index 0 (String c "") (u ++ String c rest) = Some (String.length u).
Proof.
  induction u as [|a u IH]; intros Hfree.
  - cbn [append String.length String.index].
    rewrite prefix_char, Ascii.eqb_refl. reflexivity.
  - cbn [free_of] in Hfree. apply andb_true_iff in Hfree as [Ha Hu].
    cbn [append String.length String.index].
    rewrite prefix_char.
    apply negb_true_iff in Ha. rewrite Ha, (IH Hu). reflexivity.
Qed.

(** A character is not found in a string that is free of it. *)
Lemma index_char_none (c : ascii) (u : string) (n : nat) :
  free_of c u = true -> String.index n (String c "") u = None.
Proof.
  revert n. induction u as [|a u IH]; intros n Hfree.
  - destruct n; reflexivity.
  - cbn [free_of] in Hfree. apply andb_true_iff in Hfree as [Ha Hu].
    apply negb_true_iff in Ha.
    destruct n as [|n]; cbn [String.index].
    + rewrite prefix_char, Ha, (IH 0%nat Hu). reflexivity.
    + rewrite (IH n Hu). reflexivity.
Qed.

Lemma free_of_app (c : ascii) (s t : string) :
  free_of c (s ++ t) = free_of c s && free_of c t.
Proof.
  induction s as [|a s IH]; simpl; [reflexivity|].
  rewrite IH. now rewrite andb_assoc.
Qed.

Lemma clamp_inside (s : string) (i : Z) :
  0 <= i <= len s -> clamp s i = i.
Proof. unfold clamp. lia. Qed.

Lemma indexOf_found (s pat : string) (pos : Z) (k : nat) :
  0 <= pos <= len s ->
  String.index (Z.to_nat pos) pat s = Some k ->
  indexOf s pat pos = Z.of_nat k.
Proof.
  intros Hpos E. unfold indexOf. rewrite (clamp_inside _ _ Hpos), E.
  reflexivity.
Qed.

Lemma indexOf_missing (s pat : string) (pos : Z) :
  0 <= pos <= len s ->
  String.index (Z.to_nat pos) pat s = None ->
  indexOf s pat pos = -1.
Proof.
  intros Hpos E. unfold indexOf. rewrite (clamp_inside _ _ Hpos), E.
  reflexivity.
Qed.

End StrFacts.

(* ===================================================================== *)
(** * The version probe *)
(* ===================================================================== *)

Module DependencyVerifierFacts.

Import JS StrFacts DependencyVerifier.

Lemma version_string_free : free_of LF VERSION_STRING = true.
Proof. reflexivity. Qed.

Lemma len_nonneg (s : string) : 0 <= len s.
Proof. unfold len. lia. Qed.

(** When the marker is found at [s] and the next line feed at [e], the
    version is what lies between the end of the marker and [e]. *)
Lemma parseVersion_closed (buf : string) (s e : nat) :
  String.index 0 VERSION_STRING buf = Some s ->
  String.index s newline buf = Some e ->
  (s + 8 <= e)%nat ->
  (e <= String.length buf)%nat ->
  parseVersion buf = Some (String.substring (s + 8) (e - (s + 8)) buf).
Proof.
  intros Hs He Hse Hlen. unfold parseVersion.
  assert (Hstart : indexOf buf VERSION_STRING 0 = Z.of_nat s).
  { apply indexOf_found; [pose proof (len_nonneg buf); lia | exact Hs]. }
  rewrite Hstart.
  assert (Hend : indexOf buf newline (Z.of_nat s) = Z.of_nat e).
  { apply indexOf_found; [unfold len; lia | now rewrite Nat2Z.id]. }
  rewrite Hend.
  replace (Z.of_nat s >? -1) with true by (symmetry; apply Z.gtb_lt; lia).
  f_equal. unfold substring.
  change (len VERSION_STRING) with 8.
  rewrite !clamp_inside by (unfold len; lia).
  rewrite Z.min_l, Z.max_r by lia.
  f_equal; lia.
Qed.

(** When the marker is found at [s] and no line feed follows, the end
    index is [-1]: it is clamped to [0] and the ends are swapped. *)
Lemma parseVersion_open (buf : string) (s : nat) :
  String.index 0 VERSION_STRING buf = Some s ->
  String.index s newline buf = None ->
  (s + 8 <= String.length buf)%nat ->
  parseVersion buf = Some (String.substring 0 (s + 8) buf).
Proof.
  intros Hs He Hlen. unfold parseVersion.
  assert (Hstart : indexOf buf VERSION_STRING 0 = Z.of_nat s).
  { apply indexOf_found; [pose proof (len_nonneg buf); lia | exact Hs]. }
  rewrite Hstart.
  assert (Hend : indexOf buf newline (Z.of_nat s) = -1).
  { apply indexOf_missing; [unfold len; lia | now rewrite Nat2Z.id]. }
  rewrite Hend.
  replace (Z.of_nat s >? -1) with true by (symmetry; apply Z.gtb_lt; lia).
  f_equal. unfold substring.
  change (len VERSION_STRING) with 8.
  rewrite (clamp_inside buf (Z.of_nat s + 8)) by (unfold len; lia).
  replace (clamp buf (-1)) with 0
    by (unfold clamp; pose proof (len_nonneg buf); lia).
  rewrite Z.min_r, Z.max_l by lia.
  f_equal; lia.
Qed.

Lemma parseVersion_none (buf : string) :
  String.index 0 VERSION_STRING buf = None -> parseVersion buf = None.
Proof.
  intros E. unfold parseVersion, indexOf.
  rewrite clamp_inside by (pose proof (len_nonneg buf); lia).
  change (Z.to_nat 0) with 0%nat. rewrite E. reflexivity.
Qed.

(** The version between the first marker and the line feed that
    follows it. *)
Lemma parseVersion_line (pre v rest : string) :
  (forall k, (k < String.length pre)%nat ->
     ~ occurs_at VERSION_STRING (pre ++ VERSION_STRING ++ v ++ newline ++ rest) k) ->
  free_of LF v = true ->
  parseVersion (pre ++ VERSION_STRING ++ v ++ newline ++ rest) = Some v.
Proof.
  intros Hfirst Hv.
  set (buf := pre ++ VERSION_STRING ++ v ++ newline ++ rest).
  assert (Hs : String.index 0 VERSION_STRING buf = Some (String.length pre)).
  { apply index_first; [discriminate | exact Hfirst]. }
  assert (He : String.index (String.length pre) newline buf
               = Some (String.length pre + (8 + String.length v))%nat).
  { unfold buf.
    rewrite <- (Nat.add_0_r (String.length pre)) at 1.
    rewrite index_skip.
    rewrite <- (app_assoc VERSION_STRING v (newline ++ rest)).
    change (newline ++ rest) with (String LF rest).
    unfold newline. rewrite index_char_after.
    - cbn [option_map]. rewrite length_app. reflexivity.
    - rewrite free_of_app, version_string_free, Hv. reflexivity. }
  rewrite (parseVersion_closed buf _ _ Hs He).
  - unfold buf.
    rewrite <- (app_assoc pre VERSION_STRING (v ++ newline ++ rest)).
    replace (String.length pre + 8)%nat
      with (String.length (pre ++ VERSION_STRING) + 0)%nat
      by (rewrite length_app; simpl; lia).
    rewrite substring_skip.
    replace (String.length pre + (8 + String.length v)
             - (String.length (pre ++ VERSION_STRING) + 0))%nat
      with (String.length v) by (rewrite length_app; simpl; lia).
    rewrite substring_prefix. reflexivity.
  - lia.
  - unfold buf. rewrite !length_app. simpl. lia.
Qed.

(** Without a line feed at or after the first marker the "version" is
    the buffer up to the end of the marker. *)
Lemma parseVersion_no_line (pre tail : string) :
  (forall k, (k < String.length pre)%nat ->
     ~ occurs_at VERSION_STRING (pre ++ VERSION_STRING ++ tail) k) ->
  free_of LF tail = true ->
  parseVersion (pre ++ VERSION_STRING ++ tail) = Some (pre ++ VERSION_STRING).
Proof.
  intros Hfirst Ht.
  set (buf := pre ++ VERSION_STRING ++ tail).
  assert (Hs : String.index 0 VERSION_STRING buf = Some (String.length pre)).
  { apply index_first; [discriminate | exact Hfirst]. }
  assert (He : String.index (String.length pre) newline buf = None).
  { unfold buf.
    rewrite <- (Nat.add_0_r (String.length pre)) at 1.
    rewrite index_skip. unfold newline.
    rewrite index_char_none; [reflexivity|].
    rewrite free_of_app, version_string_free, Ht. reflexivity. }
  rewrite (parseVersion_open buf _ Hs He).
  - unfold buf.
    rewrite <- (app_assoc pre VERSION_STRING tail).
    replace (String.length pre + 8)%nat
      with (String.length (pre ++ VERSION_STRING))
      by (rewrite length_app; simpl; lia).
    rewrite substring_prefix. reflexivity.
  - unfold buf. rewrite !length_app. simpl. lia.
Qed.

Lemma truthy_nonempty (v : string) : v <> "" -> truthy (Some v) = true.
Proof.
  intros Hv. unfold truthy. apply negb_true_iff. now apply String.eqb_neq.
Qed.

(** The data callback on a buffer with a non-empty version. *)
Lemma onData_version (st : probe) (v : string) :
  parseVersion (outBuf st) = Some v ->
  v <> "" ->
  onData st = perform (Resolve v) (perform (Send Quit) st).
Proof.
  intros Hp Hv. unfold onData. rewrite Hp, (truthy_nonempty v Hv).
  reflexivity.
Qed.

Lemma quits_app (l1 l2 : list effect) :
  quits (l1 ++ l2) = (quits l1 + quits l2)%nat.
Proof. unfold quits. now rewrite filter_app, List.length_app. Qed.

(** A settled promise stays as it is. *)
Lemma settled_stable (ev : event) (st : probe) :
  promise st <> Promise.Pending -> promise (handle ev st) = promise st.
Proof.
  intros Hs.
  assert (Hperf : forall e s, promise s <> Promise.Pending ->
                              promise (perform e s) = promise s).
  { intros e s H. destruct e; simpl; try reflexivity;
      destruct (promise s); simpl; congruence. }
  destruct ev as [e|e|e|chunk|code]; cbn [handle].
  - now apply Hperf.
  - now apply Hperf.
  - now apply Hperf.
  - unfold receive, onData. cbn [outBuf].
    destruct (parseVersion (outBuf st ++ chunk)) as [v|]; [|exact eq_refl].
    destruct (truthy (Some v)); [|exact eq_refl].
    rewrite !Hperf; [reflexivity | exact Hs | ].
    rewrite Hperf; exact Hs.
  - unfold onExit. destruct (negb (code =? 0)).
    + rewrite !Hperf; [reflexivity | exact Hs | ].
      rewrite Hperf; exact Hs.
    + now apply Hperf.
Qed.

Lemma settled_stable_run (evs : list event) (st : probe) :
  promise st <> Promise.Pending -> promise (run evs st) = promise st.
Proof.
  revert st. induction evs as [|ev evs IH]; intros st Hs; [reflexivity|].
  unfold run in *. cbn [fold_left].
  rewrite IH; [apply settled_stable; exact Hs|].
  rewrite settled_stable; exact Hs.
Qed.

Lemma spawned_handle (ev : event) (st : probe) :
  spawned (handle ev st) = spawned st.
Proof.
  destruct ev as [e|e|e|chunk|code]; simpl; try reflexivity.
  - unfold receive, onData. simpl.
    destruct (parseVersion (outBuf st ++ chunk)) as [v|]; [|reflexivity].
    destruct (truthy (Some v)); reflexivity.
  - unfold onExit. destruct (negb (code =? 0)); reflexivity.
Qed.

Lemma spawned_run (evs : list event) (st : probe) :
  spawned (run evs st) = spawned st.
Proof.
  revert st. induction evs as [|ev evs IH]; intros st; [reflexivity|].
  unfold run in *. cbn [fold_left]. rewrite IH. apply spawned_handle.
Qed.

Lemma failure_rejects (ev : event) (r : reason) (st : probe) :
  failure ev = Some r ->
  promise st = Promise.Pending ->
  promise (handle ev st) = Promise.Rejected r.
Proof.
  intros Hf Hp.
  destruct ev as [e|e|e|chunk|code]; simpl in Hf; try discriminate;
    try (injection Hf as <-; simpl; now rewrite Hp).
  simpl. unfold onExit.
  destruct (code =? 0); [discriminate|].
  injection Hf as <-. simpl. now rewrite Hp.
Qed.

(** C3, as amended. For every output buffer in which the first
    [VERSION:] marker is followed by a line feed, [parseVersion]
    returns exactly the text between the end of that marker and the
    next line feed. When this text is not empty, the data callback
    sends the quit command exactly once and then resolves the
    handshake with the text; when it is empty the callback does
    nothing. *)
Theorem version_probe_extracts_then_quits (pre v rest : string) (st : probe) :
  (forall k, (k < String.length pre)%nat ->
     ~ occurs_at VERSION_STRING (pre ++ VERSION_STRING ++ v ++ newline ++ rest) k) ->
  free_of LF v = true ->
  outBuf st = pre ++ VERSION_STRING ++ v ++ newline ++ rest ->
  parseVersion (outBuf st) = Some v /\
  (v <> "" ->
     calls (onData st) = (calls st ++ [Send Quit; Resolve v])%list /\
     quits (calls (onData st)) = S (quits (calls st)) /\
     promise (onData st) = Promise.resolve (promise st) v /\
     (promise st = Promise.Pending ->
      promise (onData st) = Promise.Fulfilled v)) /\
  (v = "" -> onData st = st).
Proof.
  intros Hfirst Hv Hbuf.
  assert (Hp : parseVersion (outBuf st) = Some v).
  { rewrite Hbuf. now apply parseVersion_line. }
  split; [exact Hp|]. split.
  - intros Hne. rewrite (onData_version st v Hp Hne).
    cbn [perform calls promise].
    rewrite <- List.app_assoc. cbn [List.app].
    repeat split.
    + rewrite quits_app. cbn. lia.
    + intros Hpend. rewrite Hpend. reflexivity.
  - intros ->. unfold onData. rewrite Hp. reflexivity.
Qed.

Lemma version_probe_extracts_then_quits_witness :
  let buf := "VERSION:1.2.3" ++ newline ++ "SUCCESS-MARKER" ++ newline in
  parseVersion buf = Some "1.2.3" /\
  calls (onData (probing buf))
  = [Send VersionRequest; Send Quit; Resolve "1.2.3"] /\
  quits (calls (onData (probing buf))) = 1%nat /\
  promise (onData (probing buf)) = Promise.Fulfilled "1.2.3".
Proof.
  intros buf.
  destruct (version_probe_extracts_then_quits
              "" "1.2.3" ("SUCCESS-MARKER" ++ newline) (probing buf))
    as [Hp [Hsome _]].
  - intros k Hk. simpl in Hk. lia.
  - reflexivity.
  - reflexivity.
  - destruct Hsome as [Hc [Hq [_ Hres]]]; [discriminate|].
    split; [exact Hp|].
    split; [exact Hc|].
    split; [exact Hq|].
    apply Hres. reflexivity.
Defined.

(** C3, as stated, fails on a buffer whose version line is empty: the
    extracted text is the empty string, which the callback's guard
    takes for no version, so that no quit is sent and the handshake
    stays pending. *)
Lemma version_probe_empty_version :
  let buf := "VERSION:" ++ newline in
  parseVersion buf = Some "" /\
  onData (probing buf) = probing buf /\
  quits (calls (onData (probing buf))) = 0%nat /\
  promise (onData (probing buf)) <> Promise.Fulfilled "".
Proof.
  cbv zeta. repeat split. discriminate.
Qed.

(** C9. For every output buffer that contains the [VERSION:] marker
    and no line feed at or after the first marker, [parseVersion]
    returns the buffer up to and including that marker, which is not
    the empty string; the data callback therefore sends quit and
    resolves the handshake with this prefix as the version. *)
Theorem version_without_newline_is_prefix (pre tail : string) (st : probe) :
  (forall k, (k < String.length pre)%nat ->
     ~ occurs_at VERSION_STRING (pre ++ VERSION_STRING ++ tail) k) ->
  free_of LF tail = true ->
  outBuf st = pre ++ VERSION_STRING ++ tail ->
  parseVersion (outBuf st) = Some (pre ++ VERSION_STRING) /\
  pre ++ VERSION_STRING <> "" /\
  truthy (parseVersion (outBuf st)) = true /\
  calls (onData st)
  = (calls st ++ [Send Quit; Resolve (pre ++ VERSION_STRING)])%list /\
  (promise st = Promise.Pending ->
   promise (onData st) = Promise.Fulfilled (pre ++ VERSION_STRING)).
Proof.
  intros Hfirst Ht Hbuf.
  assert (Hp : parseVersion (outBuf st) = Some (pre ++ VERSION_STRING)).
  { rewrite Hbuf. now apply parseVersion_no_line. }
  assert (Hne : pre ++ VERSION_STRING <> "").
  { destruct pre; discriminate. }
  split; [exact Hp|]. split; [exact Hne|]. split.
  { rewrite Hp. now apply truthy_nonempty. }
  rewrite (onData_version st _ Hp Hne).
  cbn [perform calls promise].
  rewrite <- List.app_assoc. cbn [List.app].
  split; [reflexivity|].
  intros Hpend. rewrite Hpend. reflexivity.
Qed.

Lemma version_without_newline_is_prefix_witness :
  let buf := "Dafny VERSION:1.9" in
  parseVersion buf = Some "Dafny VERSION:" /\
  calls (onData (probing buf))
  = [Send VersionRequest; Send Quit; Resolve "Dafny VERSION:"] /\
  promise (onData (probing buf)) = Promise.Fulfilled "Dafny VERSION:".
Proof.
  intros buf.
  destruct (version_without_newline_is_prefix "Dafny " "1.9" (probing buf))
    as [Hp [_ [_ [Hc Hres]]]].
  - intros k Hk. unfold occurs_at.
    do 6 (destruct k as [|k]; [discriminate|]).
    simpl in Hk. lia.
  - reflexivity.
  - reflexivity.
  - split; [exact Hp|]. split; [exact Hc|]. apply Hres. reflexivity.
Defined.

(** C8. While the handshake is pending, a spawn error, an error on the
    standard input, an error reported by the wrapper or an exit with a
    code other than zero rejects the promise of the version probe
    with the error or the code; whatever follows, the promise stays
    rejected, no second process is spawned, and [verifyDependencies]
    reports the failure by asking to install Dafny. *)
Theorem version_probe_rejects_on_failure
    (before after : list event) (ev : event) (r : reason)
    (latest : Promise.t bool string) :
  promise (run before verifyDafnyServer) = Promise.Pending ->
  failure ev = Some r ->
  let final := run ((before ++ ev :: after)%list) verifyDafnyServer in
  promise final = Promise.Rejected r /\
  spawned final = 1%nat /\
  Server.verifyDependencies (promise final) latest
  = [Server.SendNotification Strings.DafnyMissing Strings.AskInstallDafny].
Proof.
  intros Hpend Hfail final.
  assert (Hrej : promise final = Promise.Rejected r).
  { unfold final, run. rewrite fold_left_app. cbn [fold_left].
    fold (run before verifyDafnyServer).
    fold (run after (handle ev (run before verifyDafnyServer))).
    rewrite settled_stable_run.
    - now apply failure_rejects.
    - rewrite (failure_rejects ev r _ Hfail Hpend). discriminate. }
  split; [exact Hrej|]. split.
  - unfold final. now rewrite spawned_run.
  - rewrite Hrej. reflexivity.
Qed.

Lemma version_probe_rejects_on_failure_witness :
  let final :=
    run (([Exit 0] ++ ProcessError "spawn mono ENOENT" :: [Exit 1])%list)
        verifyDafnyServer in
  promise final = Promise.Rejected (Err "spawn mono ENOENT") /\
  spawned final = 1%nat /\
  Server.verifyDependencies (promise final) Promise.Pending
  = [Server.SendNotification Strings.DafnyMissing Strings.AskInstallDafny].
Proof.
  apply (version_probe_rejects_on_failure
           [Exit 0] [Exit 1] (ProcessError "spawn mono ENOENT")
           (Err "spawn mono ENOENT") Promise.Pending).
  - reflexivity.
  - reflexivity.
Defined.

End DependencyVerifierFacts.

(* ===================================================================== *)
(** * The polling loops of the request handlers *)
(* ===================================================================== *)

Module ServerFacts.

Import Server.

(** The loop stops at the first check at which the condition fails. *)
Lemma poll_stops (cond : nat -> bool) (k remaining tries : nat) :
  (k <= remaining)%nat ->
  (forall j, (j < k)%nat -> cond (tries + j)%nat = true) ->
  cond (tries + k)%nat = false ->
  poll cond remaining tries = (tries + k)%nat.
Proof.
  revert remaining tries.
  induction k as [|k IH]; intros remaining tries Hle Htrue Hfalse.
  - rewrite Nat.add_0_r in *.
    destruct remaining; cbn [poll]; rewrite Hfalse; reflexivity.
  - destruct remaining as [|r]; [lia|].
    cbn [poll].
    pose proof (Htrue 0%nat ltac:(lia)) as H0.
    rewrite Nat.add_0_r in H0. rewrite H0.
    rewrite (IH r (S tries)).
    + lia.
    + lia.
    + intros j Hj. replace (S tries + j)%nat with (tries + S j)%nat by lia.
      apply Htrue. lia.
    + replace (S tries + k)%nat with (tries + S k)%nat by lia. exact Hfalse.
Qed.

(** The loop gives up after [remaining] sleeps. *)
Lemma poll_gives_up (cond : nat -> bool) (remaining tries : nat) :
  (forall j, (j < remaining)%nat -> cond (tries + j)%nat = true) ->
  poll cond remaining tries = (tries + remaining)%nat.
Proof.
  revert tries.
  induction remaining as [|r IH]; intros tries Htrue.
  - cbn [poll]. destruct (cond tries); lia.
  - cbn [poll].
    pose proof (Htrue 0%nat ltac:(lia)) as H0.
    rewrite Nat.add_0_r in H0. rewrite H0.
    rewrite (IH (S tries)); [lia|].
    intros j Hj. replace (S tries + j)%nat with (tries + S j)%nat by lia.
    apply Htrue. lia.
Qed.

(** The loop never sleeps more than [remaining] times. *)
Lemma poll_bounded (cond : nat -> bool) (remaining tries : nat) :
  (tries <= poll cond remaining tries <= tries + remaining)%nat.
Proof.
  revert tries.
  induction remaining as [|r IH]; intros tries; cbn [poll].
  - destruct (cond tries); lia.
  - destruct (cond tries); [|lia].
    pose proof (IH (S tries)). lia.
Qed.

(** C2. For every interval [I] and bound [M], the readiness gate
    succeeds at the first check at which the provider and its
    reference provider exist, after as many sleeps of [I] milliseconds
    as checks failed before; when the condition holds at none of the
    checks it sleeps [M] times, no fewer and no more, and then fails
    with the timeout. The handler has [I = 2000] and [M = 30]. *)
Theorem readiness_gate_bounded (I : Z) (M : nat)
    (provider_at : nat -> option DafnyServerProvider) :
  (forall k, (k <= M)%nat ->
     lensReady (provider_at k) = true ->
     (forall j, (j < k)%nat -> lensReady (provider_at j) = false) ->
     awaitReady I M provider_at
     = {| outcome := Ready; sleeps := k; elapsedMs := Z.of_nat k * I |}) /\
  ((forall k, (k <= M)%nat -> lensReady (provider_at k) = false) ->
     awaitReady I M provider_at
     = {| outcome := Timeout; sleeps := M; elapsedMs := Z.of_nat M * I |}) /\
  (sleeps (awaitReady I M provider_at) <= M)%nat /\
  onCodeLens_gate provider_at = awaitReady 2000 30 provider_at.
Proof.
  split; [|split; [|split]].
  - intros k Hk Hready Hbefore. unfold awaitReady.
    rewrite (poll_stops _ k M 0%nat Hk).
    + cbn [Nat.add]. rewrite Hready. reflexivity.
    + intros j Hj. cbn [Nat.add]. now rewrite (Hbefore j Hj).
    + cbn [Nat.add]. now rewrite Hready.
  - intros Hnever. unfold awaitReady.
    rewrite poll_gives_up.
    + cbn [Nat.add]. rewrite (Hnever M (Nat.le_refl M)). reflexivity.
    + intros j Hj. cbn [Nat.add]. rewrite (Hnever j); [reflexivity | lia].
  - unfold awaitReady. cbn [sleeps].
    pose proof (poll_bounded
                  (fun t => negb (lensReady (provider_at t))) M 0%nat).
    lia.
  - reflexivity.
Qed.

Lemma readiness_gate_bounded_witness :
  awaitReady 2000 3 (up_after 2)
  = {| outcome := Ready; sleeps := 2; elapsedMs := 4000 |} /\
  awaitReady 2000 3 (fun _ => None)
  = {| outcome := Timeout; sleeps := 3; elapsedMs := 6000 |}.
Proof.
  split.
  - destruct (readiness_gate_bounded 2000 3 (up_after 2)) as [Hfirst _].
    apply (Hfirst 2%nat).
    + lia.
    + reflexivity.
    + intros j Hj.
      destruct j as [|[|j]]; [reflexivity | reflexivity | lia].
  - destruct (readiness_gate_bounded 2000 3 (fun _ => None)) as [_ [Hnever _]].
    apply Hnever. intros k _. reflexivity.
Defined.

End ServerFacts.

(* ===================================================================== *)
(** * The rename provider *)
(* ===================================================================== *)

Module RenameProviderFacts.

Import RenameProvider.

Section Provider.

Variables TextDocument Position DafnySymbol Changes Error : Type.
Variable DocumentDecorator : Type.
Variable newDocumentDecorator :
  option TextDocument -> Promise.completion DocumentDecorator Error.
Variable getWordAtPosition :
  DocumentDecorator -> Position -> Promise.completion string Error.
Variable getAllSymbols :
  option TextDocument ->
  Promise.completion (Promise.t (list DafnySymbol) Error) Error.
Variable holderCollectRenamings :
  string -> string -> list DafnySymbol -> Position ->
  Promise.completion Changes Error.

Local Abbreviation edits :=
  (provideRenameEdits TextDocument Position DafnySymbol Changes Error
     DocumentDecorator newDocumentDecorator getWordAtPosition
     getAllSymbols holderCollectRenamings).
Local Abbreviation internal :=
  (provideRenameInternal TextDocument Position DafnySymbol Changes Error
     DocumentDecorator newDocumentDecorator getWordAtPosition
     getAllSymbols holderCollectRenamings).

(** What the promise of [provideRenameEdits] settles to, given the
    promise of the symbol service and the word to rename. *)
Local Abbreviation settled symbolsPromise word newName position :=
  (match symbolsPromise with
   | Promise.Pending => Promise.Pending
   | Promise.Rejected _ => Promise.Fulfilled (Some emptyEdit)
   | Promise.Fulfilled symbols =>
       match holderCollectRenamings word newName symbols position with
       | Promise.Return c => Promise.Fulfilled (Some {| changes := Some c |})
       | Promise.Throw _ => Promise.Fulfilled (Some emptyEdit)
       end
   end).

(** The three steps that run before a handler is attached either
    all return, or the first that throws ends the function. *)
Lemma provideRenameEdits_steps (document : option TextDocument)
    (position : Position) (newName : string) :
  edits document position newName
  = match newDocumentDecorator document with
    | Promise.Throw e => Promise.Throw e
    | Promise.Return documentDecorator =>
        match getWordAtPosition documentDecorator position with
        | Promise.Throw e => Promise.Throw e
        | Promise.Return word =>
            match getAllSymbols document with
            | Promise.Throw e => Promise.Throw e
            | Promise.Return symbolsPromise =>
                Promise.Return (settled symbolsPromise word newName position)
            end
        end
    end.
Proof.
  unfold provideRenameEdits, provideRenameInternal, collectRenamings, andThen.
  destruct (newDocumentDecorator document) as [documentDecorator|e]; [|reflexivity].
  destruct (getWordAtPosition documentDecorator position) as [word|e]; [|reflexivity].
  destruct (getAllSymbols document) as [symbolsPromise|e]; [|reflexivity].
  f_equal. unfold Promise.catch, Promise.then1, Promise.then2.
  destruct symbolsPromise as [|symbols|e]; [reflexivity| |reflexivity].
  destruct (holderCollectRenamings word newName symbols position); reflexivity.
Qed.

(** The inner [catch] leaves no rejection for the outer handler. *)
Lemma provideRenameInternal_settles (newName : string)
    (document : option TextDocument) (position : Position) :
  forall p, internal newName document position = Promise.Return p ->
            Promise.is_rejected p = false.
Proof.
  unfold provideRenameInternal, collectRenamings, andThen.
  destruct (newDocumentDecorator document) as [documentDecorator|e]; [|discriminate].
  destruct (getWordAtPosition documentDecorator position) as [word|e]; [|discriminate].
  destruct (getAllSymbols document) as [symbolsPromise|e]; [|discriminate].
  intros p Hp. injection Hp as <-.
  unfold Promise.catch, Promise.then1, Promise.then2.
  destruct symbolsPromise as [|symbols|e]; [reflexivity| |reflexivity].
  destruct (holderCollectRenamings word newName symbols position); reflexivity.
Qed.

(** C10, as amended. For every document, position and new name,
    the promise [provideRenameEdits] returns is never rejected:
    when the promise of the symbol service rejects, or collecting
    the renamings in the callback of [then] throws, it is fulfilled
    with the empty edit; when the renamings are collected it is
    fulfilled with them; and the outer error handler, were it
    reached, fulfils it with [null]. A promise is returned when
    the decorator is built, the word is read and the symbol
    service is called without a throw; these three steps run
    before any handler is attached, and the first of them that
    throws makes [provideRenameEdits] throw that exception in
    place of returning a promise. *)
Theorem provideRenameEdits_never_rejects (document : option TextDocument)
    (position : Position) (newName : string) :
  (forall p, edits document position newName = Promise.Return p ->
             Promise.is_rejected p = false) /\
  (forall documentDecorator word symbolsPromise,
     newDocumentDecorator document = Promise.Return documentDecorator ->
     getWordAtPosition documentDecorator position = Promise.Return word ->
     getAllSymbols document = Promise.Return symbolsPromise ->
     edits document position newName
     = Promise.Return (settled symbolsPromise word newName position)) /\
  (forall e,
     newDocumentDecorator document = Promise.Throw e ->
     edits document position newName = Promise.Throw e) /\
  (forall documentDecorator e,
     newDocumentDecorator document = Promise.Return documentDecorator ->
     getWordAtPosition documentDecorator position = Promise.Throw e ->
     edits document position newName = Promise.Throw e) /\
  (forall documentDecorator word e,
     newDocumentDecorator document = Promise.Return documentDecorator ->
     getWordAtPosition documentDecorator position = Promise.Return word ->
     getAllSymbols document = Promise.Throw e ->
     edits document position newName = Promise.Throw e) /\
  (forall (inner : Promise.t (option (WorkspaceEdit Changes)) Error),
     Promise.is_rejected
       (Promise.then2 inner (onDefinitionInfo Changes Error)
          (onRenameError Changes Error)) = false) /\
  (forall err : Error,
     Promise.then2 (Promise.Rejected err) (onDefinitionInfo Changes Error)
       (onRenameError Changes Error)
     = Promise.Fulfilled None).
Proof.
  split; [|split; [|split; [|split; [|split; [|split]]]]].
  - intros p. rewrite provideRenameEdits_steps.
    destruct (newDocumentDecorator document) as [documentDecorator|e]; [|discriminate].
    destruct (getWordAtPosition documentDecorator position) as [word|e]; [|discriminate].
    destruct (getAllSymbols document) as [symbolsPromise|e]; [|discriminate].
    intros Hp. injection Hp as <-.
    destruct symbolsPromise as [|symbols|e]; [reflexivity| |reflexivity].
    destruct (holderCollectRenamings word newName symbols position); reflexivity.
  - intros documentDecorator word symbolsPromise Hd Hw Hs.
    now rewrite provideRenameEdits_steps, Hd, Hw, Hs.
  - intros e Hd. now rewrite provideRenameEdits_steps, Hd.
  - intros documentDecorator e Hd Hw.
    now rewrite provideRenameEdits_steps, Hd, Hw.
  - intros documentDecorator word e Hd Hw Hs.
    now rewrite provideRenameEdits_steps, Hd, Hw, Hs.
  - intros [|[d|]|e]; reflexivity.
  - reflexivity.
Qed.

End Provider.

(** ** Examples *)

(** A provider over documents that are their text, whose symbol
    service is down and rejects. *)
Local Abbreviation sampleEdits :=
  (provideRenameEdits string nat nat nat string string sampleDecorator
     (fun text _ => Promise.Return text)
     (fun _ => Promise.Return (Promise.Rejected "symbol service down"))
     (fun _ _ _ _ => Promise.Return 0%nat)).

Lemma provideRenameEdits_never_rejects_witness :
  sampleEdits (Some "method m() {}") 3%nat "n"
  = Promise.Return (Promise.Fulfilled (Some emptyEdit)).
Proof.
  destruct (provideRenameEdits_never_rejects string nat nat nat string string
              sampleDecorator
              (fun text _ => Promise.Return text)
              (fun _ => Promise.Return (Promise.Rejected "symbol service down"))
              (fun _ _ _ _ => Promise.Return 0%nat)
              (Some "method m() {}") 3%nat "n")
    as (_ & Hreturns & _).
  apply (Hreturns "method m() {}" "method m() {}"
           (Promise.Rejected "symbol service down"));
    reflexivity.
Defined.

(** C10, as stated, fails when the document is not known: the
    decorator cannot be built, the exception leaves
    [provideRenameEdits] before any handler is attached, and no
    promise, resolved or not, is returned. *)
Lemma provideRenameEdits_throws_without_document :
  sampleEdits None 3%nat "n"
  = Promise.Throw "TypeError: document is undefined" /\
  ~ (exists p, sampleEdits None 3%nat "n" = Promise.Return p).
Proof.
  split; [reflexivity|].
  intros [p Hp]. discriminate Hp.
Qed.

End RenameProviderFacts.

(* ===================================================================== *)
(** * The framer, the dispatcher and the supervisor *)
(* ===================================================================== *)

Module BackendFacts.

Import Backend.

Lemma prefix_app (pat rest : string) : String.prefix pat (pat ++ rest) = true.
Proof.
  induction pat as [|a pat IH]; simpl.
  - now destruct rest.
  - destruct (ascii_dec a a); [exact IH | congruence].
Qed.

Lemma contains_middle (pat pre rest : string) :
  contains pat (pre ++ pat ++ rest) = true.
Proof.
  unfold contains.
  induction pre as [|a pre IH].
  - cbn [append].
    destruct (pat ++ rest) as [|b s] eqn:E.
    + destruct pat; [reflexivity | discriminate].
    + cbn [String.index]. rewrite <- E, prefix_app. reflexivity.
  - cbn [append String.index].
    destruct (String.prefix pat (String a (pre ++ pat ++ rest))); [reflexivity|].
    destruct (String.index 0 pat (pre ++ pat ++ rest)); [reflexivity | discriminate].
Qed.

Section Protocol.

Variables successMarker failureMarker : string.
Variable parseCounts : string -> Z * Z.
Variable parseCounterModel : string -> option string.

Local Abbreviation hasTerminator' := (hasTerminator successMarker failureMarker).
Local Abbreviation feed' := (feed successMarker failureMarker).
Local Abbreviation feedAll' := (feedAll successMarker failureMarker).
Local Abbreviation classify' :=
  (classify successMarker parseCounts parseCounterModel).
Local Abbreviation step' :=
  (step successMarker failureMarker parseCounts parseCounterModel).
Local Abbreviation run' :=
  (run successMarker failureMarker parseCounts parseCounterModel).
Local Abbreviation output' :=
  (output successMarker failureMarker parseCounts parseCounterModel).

Lemma run_app (evs1 evs2 : list event) (st : state) :
  run' (evs1 ++ evs2)%list st = run' evs2 (run' evs1 st).
Proof. unfold run. apply fold_left_app. Qed.

Lemma run_cons (ev : event) (evs : list event) (st : state) :
  run' (ev :: evs) st = run' evs (step' ev st).
Proof. reflexivity. Qed.

(** ** The framer *)

Lemma feed_incomplete (buf chunk : string) :
  hasTerminator' (buf ++ chunk) = false ->
  feed' buf chunk = (MoreDataNeeded, buf ++ chunk).
Proof. intros H. unfold feed. now rewrite H. Qed.

Lemma feed_complete (buf chunk : string) :
  hasTerminator' (buf ++ chunk) = true ->
  feed' buf chunk = (Frame (buf ++ chunk), "").
Proof. intros H. unfold feed. now rewrite H. Qed.

(** C4. When the success marker that ends a response is split over
    two chunks, so that the first chunk holds no complete sentinel
    and the two together hold the success marker, feeding the first
    chunk asks for more data and keeps it in the buffer, feeding the
    second completes one frame, the whole response, and clears the
    buffer: the two calls yield exactly one frame. *)
Theorem split_marker_one_frame (chunk1 chunk2 : string) :
  hasTerminator' chunk1 = false ->
  contains successMarker (chunk1 ++ chunk2) = true ->
  feed' "" chunk1 = (MoreDataNeeded, chunk1) /\
  feed' chunk1 chunk2 = (Frame (chunk1 ++ chunk2), "") /\
  feedAll' [chunk1; chunk2] "" = ([chunk1 ++ chunk2], "") /\
  List.length (fst (feedAll' [chunk1; chunk2] "")) = 1%nat.
Proof.
  intros H1 H2.
  assert (Hfirst : feed' "" chunk1 = (MoreDataNeeded, chunk1)).
  { apply (feed_incomplete "" chunk1). exact H1. }
  assert (Hsecond : feed' chunk1 chunk2 = (Frame (chunk1 ++ chunk2), "")).
  { apply feed_complete. unfold hasTerminator. now rewrite H2. }
  assert (Hall : feedAll' [chunk1; chunk2] "" = ([chunk1 ++ chunk2], "")).
  { cbn [feedAll]. rewrite Hfirst, Hsecond. reflexivity. }
  repeat split; try assumption.
  rewrite Hall. reflexivity.
Qed.

(** ** The dispatcher *)

Lemma run_submits_serving (pid : nat) (rs : list VerificationRequest) :
  forall r q w d,
    run' (map Submit rs) (serving pid r q w d)
    = serving pid r (q ++ rs) w d.
Proof.
  induction rs as [|r' rs IH]; intros r q w d.
  - cbn [map]. unfold run. cbn [fold_left]. now rewrite List.app_nil_r.
  - cbn [map]. rewrite run_cons.
    change (step' (Submit r') (serving pid r q w d))
      with (serving pid r (q ++ [r']) w d).
    rewrite IH, <- List.app_assoc. reflexivity.
Qed.

Lemma output_serving (pid : nat) (f : string) r q w d :
  hasTerminator' f = true ->
  step' (Output f) (serving pid r q w d)
  = match q with
    | [] => resting pid w (d ++ [(r, classify' f)])
    | r' :: q' =>
        serving pid r' q' (w ++ [encodeRequest r']) (d ++ [(r, classify' f)])
    end.
Proof.
  intros Hf. cbn [step]. unfold output. cbn [buffer serving].
  rewrite (feed_complete "" f Hf).
  destruct q; reflexivity.
Qed.

Lemma run_outputs_serving (pid : nat) (fs : list string) :
  forall r q w d,
    List.length fs = S (List.length q) ->
    Forall (fun f => hasTerminator' f = true) fs ->
    run' (map Output fs) (serving pid r q w d)
    = resting pid (w ++ map encodeRequest q)
        (d ++ combine (r :: q) (map classify' fs)).
Proof.
  induction fs as [|f fs IH]; intros r q w d Hlen Hall; [discriminate|].
  inversion Hall as [|f' fs' Hf Hfs]; subst.
  cbn [map]. rewrite run_cons, (output_serving pid f r q w d Hf).
  destruct q as [|r' q'].
  - destruct fs; [|discriminate].
    cbn [map combine]. unfold run. cbn [fold_left].
    now rewrite List.app_nil_r.
  - rewrite IH.
    + cbn [map combine]. rewrite <- !List.app_assoc. reflexivity.
    + cbn [List.length] in *. lia.
    + exact Hfs.
Qed.

Lemma traffic_step (ev : event) (st : state) :
  isTraffic ev = true ->
  orderly st ->
  orderly (step' ev st) /\
  (map fst (delivered (step' ev st)) ++ pending (step' ev st))%list
  = ((map fst (delivered st) ++ pending st) ++ submissions [ev])%list.
Proof.
  intros Hev Hord.
  destruct ev as [r|chunk| | | | |]; try discriminate; cbn [step].
  - (* Submit *)
    unfold submit, accepts, orderly, pending in *.
    destruct Hord as [[Hs [Hi Hq]]|[Hs Hi]]; rewrite Hs; cbn [snd].
    + unfold dispatch, enqueue. cbn. rewrite Hs, Hq, Hi. cbn.
      split; [right; split; [reflexivity|discriminate]|].
      now rewrite List.app_nil_r.
    + unfold dispatch, enqueue. cbn. rewrite Hs.
      split; [right; split; [reflexivity|exact Hi]|].
      destruct (inFlight st); [|congruence].
      cbn. rewrite <- !List.app_assoc. reflexivity.
  - (* Output *)
    cbn [submissions flat_map]. rewrite List.app_nil_r.
    unfold output.
    destruct (feed' (buffer st) chunk) as [[|raw] b].
    + split; [exact Hord | reflexivity].
    + unfold orderly, pending in *.
      destruct Hord as [[Hs [Hi Hq]]|[Hs Hi]]; rewrite Hs.
      * cbn. rewrite Hs, Hi, Hq. split; [left; auto | reflexivity].
      * destruct (inFlight st) as [r|] eqn:Ei; [|congruence].
        unfold dispatch, retire. cbn. rewrite Ei.
        destruct (queue st) as [|r' q']; cbn.
        -- split; [left; auto|].
           rewrite map_app. cbn. rewrite <- List.app_assoc. reflexivity.
        -- split; [right; split; [reflexivity|discriminate]|].
           rewrite map_app. cbn. rewrite <- List.app_assoc. reflexivity.
Qed.

Lemma submissions_app (evs1 evs2 : list event) :
  submissions (evs1 ++ evs2)%list
  = (submissions evs1 ++ submissions evs2)%list.
Proof. unfold submissions. apply flat_map_app. Qed.

Lemma traffic_run (evs : list event) :
  forall st,
    forallb isTraffic evs = true ->
    orderly st ->
    orderly (run' evs st) /\
    (map fst (delivered (run' evs st)) ++ pending (run' evs st))%list
    = ((map fst (delivered st) ++ pending st) ++ submissions evs)%list.
Proof.
  induction evs as [|ev evs IH]; intros st Hall Hord.
  - unfold run. cbn. now rewrite List.app_nil_r.
  - cbn [forallb] in Hall. apply andb_true_iff in Hall as [Hev Hevs].
    rewrite run_cons.
    destruct (traffic_step ev st Hev Hord) as [Hord' Heq'].
    destruct (IH _ Hevs Hord') as [Hord'' Heq''].
    split; [exact Hord''|].
    rewrite Heq'', Heq'.
    change (ev :: evs) with ([ev] ++ evs)%list.
    rewrite submissions_app, <- !List.app_assoc. reflexivity.
Qed.

Lemma combine_fst {A B} (l : list A) (l' : list B) :
  List.length l' = List.length l -> map fst (combine l l') = l.
Proof.
  revert l'. induction l as [|a l IH]; intros [|b l'] H; try discriminate.
  - reflexivity.
  - cbn. f_equal. apply IH. cbn in H. lia.
Qed.

(** C1. Whatever the interleaving of submissions and backend output,
    starting from an idle backend, the requests already answered
    followed by the request in flight and the queue are the
    requests submitted, in the order of submission: results are
    delivered oldest first and each frame goes to the oldest
    outstanding request. When [N] requests are submitted and the
    backend then answers with [N] complete responses, exactly [N]
    results are delivered, the [i]-th one, read from the [i]-th
    response, to the [i]-th request. *)
Theorem results_in_submission_order (pid : nat) :
  (forall evs,
     forallb isTraffic evs = true ->
     (map fst (delivered (run' evs (idle pid)))
        ++ pending (run' evs (idle pid)))%list
     = submissions evs) /\
  (forall rs fs,
     List.length fs = List.length rs ->
     Forall (fun f => hasTerminator' f = true) fs ->
     let st := run' (map Submit rs ++ map Output fs)%list (idle pid) in
     delivered st = combine rs (map classify' fs) /\
     map fst (delivered st) = rs /\
     List.length (delivered st) = List.length rs /\
     written st = map encodeRequest rs /\
     supervisor st = Idle /\
     pending st = []).
Proof.
  split.
  - intros evs Hall.
    destruct (traffic_run evs (idle pid) Hall) as [_ Heq].
    + left. repeat split.
    + rewrite Heq. reflexivity.
  - intros rs fs Hlen Hall st.
    assert (Hst : st = resting pid (map encodeRequest rs)
                         (combine rs (map classify' fs))).
    { unfold st. rewrite run_app.
      destruct rs as [|r rs].
      - destruct fs; [reflexivity | discriminate].
      - cbn [map]. rewrite run_cons.
        change (step' (Submit r) (idle pid))
          with (serving pid r [] [encodeRequest r] []).
        rewrite run_submits_serving. cbn [List.app].
        rewrite run_outputs_serving; [reflexivity | | exact Hall].
        cbn [List.length] in Hlen. exact Hlen. }
    rewrite Hst. cbn [delivered written supervisor resting].
    repeat split.
    + apply combine_fst. now rewrite length_map.
    + rewrite length_combine, length_map. lia.
Qed.

(** ** The supervisor *)

Lemma crashed_stays (ev : event) (st : state) :
  isStart ev = false ->
  supervisor st = Crashed ->
  process st = None ->
  supervisor (step' ev st) = Crashed /\
  process (step' ev st) = None /\
  queue (step' ev st) = queue st /\
  delivered (step' ev st) = delivered st \/
  supervisor (step' ev st) = Crashed /\
  process (step' ev st) = None /\
  queue (step' ev st) = queue st /\
  inFlight st <> None.
Proof.
  intros Hev Hs Hp.
  destruct ev as [r|chunk|code| |launched| |running_at];
    try discriminate; cbn [step].
  - left. unfold submit, accepts. rewrite Hs. cbn. auto.
  - left. unfold output.
    destruct (feed' (buffer st) chunk) as [[|raw] b]; rewrite ?Hs; cbn; auto.
  - unfold exited. rewrite Hs.
    destruct (code =? 0); [left; cbn; auto|].
    destruct (inFlight st) eqn:Ei.
    + right. cbn. repeat split; auto. discriminate.
    + left. unfold crash, retire. cbn. rewrite Ei. auto.
  - unfold writeFailed. rewrite Hs.
    destruct (inFlight st) eqn:Ei.
    + right. cbn. repeat split; auto. discriminate.
    + left. unfold crash, retire. cbn. rewrite Ei. auto.
  - left. unfold handshake. rewrite Hs. auto.
  - left. unfold stop. rewrite Hp. cbn. auto.
Qed.

(** Until it is started again, a crashed supervisor stays crashed
    and its queue is not touched. *)
Lemma crashed_run (evs : list event) :
  forall st,
    forallb (fun ev => negb (isStart ev)) evs = true ->
    supervisor st = Crashed ->
    process st = None ->
    supervisor (run' evs st) = Crashed /\
    process (run' evs st) = None /\
    queue (run' evs st) = queue st.
Proof.
  induction evs as [|ev evs IH]; intros st Hall Hs Hp.
  - unfold run. cbn. auto.
  - cbn [forallb] in Hall. apply andb_true_iff in Hall as [Hev Hevs].
    apply negb_true_iff in Hev.
    rewrite run_cons.
    destruct (crashed_stays ev st Hev Hs Hp)
      as [(Hs' & Hp' & Hq' & _)|(Hs' & Hp' & Hq' & _)];
      destruct (IH _ Hevs Hs' Hp') as (Hs'' & Hp'' & Hq'');
      rewrite Hq'' , Hq'; auto.
Qed.

Lemma crash_spec (st : state) (r : VerificationRequest) :
  inFlight st = Some r ->
  delivered (crash st) = (delivered st ++ [(r, crashResult)])%list /\
  supervisor (crash st) = Crashed /\
  process (crash st) = None /\
  inFlight (crash st) = None /\
  queue (crash st) = queue st.
Proof.
  intros Hi. unfold crash, retire. cbn. rewrite Hi. auto.
Qed.

(** C5. When the backend exits with a code other than zero, or a
    write to its standard input fails, while a request is
    outstanding, that request is resolved with a result whose
    [crashed] field is true, the supervisor is [Crashed], and until
    the supervisor is started again every submission fails with
    [NotReady] and leaves the queue as it was. The handler of the
    compile request likewise rejects on the spot when there is no
    provider. *)
Theorem crash_resolves_then_refuses (st : state) (r : VerificationRequest)
    (code : Z) :
  inFlight st = Some r ->
  supervisor st <> Stopped ->
  code <> 0 ->
  exited code st = crash st /\
  writeFailed st = crash st /\
  delivered (crash st) = (delivered st ++ [(r, crashResult)])%list /\
  crashed crashResult = true /\
  supervisor (crash st) = Crashed /\
  (forall evs r',
     forallb (fun ev => negb (isStart ev)) evs = true ->
     let st' := run' evs (crash st) in
     submit r' st' = (NotReady, refuse r' st') /\
     queue (snd (submit r' st')) = queue st /\
     supervisor (snd (submit r' st')) = Crashed) /\
  (forall (R : Type) (compile : Promise.t R string),
     Server.onRequestCompile None compile
     = Promise.Rejected Strings.NotYetReady).
Proof.
  intros Hi Hs Hcode.
  destruct (crash_spec st r Hi) as (Hd & Hc & Hp & _ & Hq).
  split; [|split; [|split; [|split; [|split; [|split]]]]].
  - unfold exited.
    apply Z.eqb_neq in Hcode. rewrite Hcode.
    destruct (supervisor st); congruence.
  - unfold writeFailed. destruct (supervisor st); congruence.
  - exact Hd.
  - reflexivity.
  - exact Hc.
  - intros evs r' Hall st'.
    destruct (crashed_run evs (crash st) Hall Hc Hp) as (Hs' & _ & Hq').
    fold st' in Hs', Hq'.
    unfold submit, accepts. rewrite Hs'. cbn.
    repeat split; congruence.
  - reflexivity.
Qed.

Lemma poll_grace (running_at : nat -> bool) :
  (Server.poll running_at Server.MAX_CONNECTION_RETRIES 0 <= 30)%nat.
Proof.
  pose proof (ServerFacts.poll_bounded running_at
                Server.MAX_CONNECTION_RETRIES 0%nat) as H.
  unfold Server.MAX_CONNECTION_RETRIES in *. lia.
Qed.

Lemma stop_without_process (running_at : nat -> bool) (st : state) :
  process st = None ->
  stop running_at st = {| after := st; quitSent := false; graceMs := 0 |}.
Proof. intros Hp. unfold stop. now rewrite Hp. Qed.

Lemma stop_drops_process (running_at : nat -> bool) (st : state) :
  process (after (stop running_at st)) = None.
Proof.
  unfold stop. destruct (process st) eqn:E; cbn [after process]; auto.
Qed.

Lemma stop_live (running_at : nat -> bool) (st : state) (pid : nat) :
  process st = Some pid ->
  stop running_at st
  = let tries := Server.poll running_at Server.MAX_CONNECTION_RETRIES 0 in
    {| after :=
         {| supervisor := Stopped; process := None; queue := queue st;
            inFlight := None; buffer := "";
            written := (written st ++ [encode "quit" ""])%list;
            delivered :=
              match inFlight st with
              | Some r => (delivered st ++ [(r, crashResult)])%list
              | None => delivered st
              end;
            refused := refused st;
            leaked := if running_at tries then pid :: leaked st
                      else leaked st |};
       quitSent := true;
       graceMs := 1000 + Z.of_nat tries * 1000 |}.
Proof. intros Hp. unfold stop. rewrite Hp. reflexivity. Qed.

(** C6. [stop] on a supervisor without a live process changes
    nothing and sends nothing. With a live process it writes the
    quit command once, resolves the request in flight as crashed,
    waits a second and then polls once a second until the first
    poll at which the process has exited, [k] polls and
    [1000 + 1000 k] milliseconds in all, after which the handle is
    dropped and nothing is leaked; when the process still runs at
    every poll it gives up after [MAX_CONNECTION_RETRIES] polls,
    31 seconds, and drops the handle as leaked. Either way the
    supervisor is [Stopped] without a process, so that a second
    [stop] changes nothing. [uninstallDafny] stops the provider in
    the same way: it does nothing without a provider, and with one
    it polls until the first poll at which the server no longer
    runs, and no longer than the grace period. *)
Theorem stop_is_idempotent (st : state) (running_at again : nat -> bool) :
  (process st = None ->
     stop running_at st = {| after := st; quitSent := false; graceMs := 0 |}) /\
  after (stop again (after (stop running_at st))) = after (stop running_at st) /\
  quitSent (stop again (after (stop running_at st))) = false /\
  (forall pid, process st = Some pid ->
     let s := stop running_at st in
     quitSent s = true /\
     written (after s) = (written st ++ [encode "quit" ""])%list /\
     process (after s) = None /\
     supervisor (after s) = Stopped /\
     inFlight (after s) = None /\
     queue (after s) = queue st /\
     delivered (after s)
     = match inFlight st with
       | Some r => (delivered st ++ [(r, crashResult)])%list
       | None => delivered st
       end /\
     1000 <= graceMs s <= 31000 /\
     (forall k, (k <= Server.MAX_CONNECTION_RETRIES)%nat ->
        running_at k = false ->
        (forall j, (j < k)%nat -> running_at j = true) ->
        graceMs s = 1000 + Z.of_nat k * 1000 /\
        leaked (after s) = leaked st) /\
     ((forall j, (j <= Server.MAX_CONNECTION_RETRIES)%nat -> running_at j = true) ->
        graceMs s = 31000 /\
        leaked (after s) = pid :: leaked st)) /\
  (forall provider_at,
     Server.stopProvider None provider_at
     = {| Server.stopCalled := false; Server.polls := 0; Server.waitedMs := 0 |}) /\
  (forall p provider_at,
     Server.stopCalled (Server.stopProvider (Some p) provider_at) = true /\
     1000 <= Server.waitedMs (Server.stopProvider (Some p) provider_at) <= 31000 /\
     (forall k, (k <= Server.MAX_CONNECTION_RETRIES)%nat ->
        Server.stillRunning (provider_at k) = false ->
        (forall j, (j < k)%nat -> Server.stillRunning (provider_at j) = true) ->
        Server.stopProvider (Some p) provider_at
        = {| Server.stopCalled := true; Server.polls := k;
             Server.waitedMs := 1000 + Z.of_nat k * 1000 |}) /\
     ((forall j, (j < Server.MAX_CONNECTION_RETRIES)%nat ->
         Server.stillRunning (provider_at j) = true) ->
        Server.stopProvider (Some p) provider_at
        = {| Server.stopCalled := true; Server.polls := 30;
             Server.waitedMs := 31000 |})).
Proof.
  split; [|split; [|split; [|split; [|split]]]].
  - apply stop_without_process.
  - now rewrite (stop_without_process again _ (stop_drops_process running_at st)).
  - now rewrite (stop_without_process again _ (stop_drops_process running_at st)).
  - intros pid Hp s. unfold s. rewrite (stop_live running_at st pid Hp).
    cbv zeta.
    cbn [after quitSent graceMs written process supervisor inFlight queue
         delivered leaked].
    pose proof (poll_grace running_at) as Hgrace.
    repeat split; try lia.
    + rewrite (ServerFacts.poll_stops running_at k
                 Server.MAX_CONNECTION_RETRIES 0%nat); auto.
    + rewrite (ServerFacts.poll_stops running_at k
                 Server.MAX_CONNECTION_RETRIES 0%nat); auto.
      cbn [Nat.add]. now rewrite H0.
    + rewrite ServerFacts.poll_gives_up; [reflexivity|].
      intros j Hj. apply H. cbn [Nat.add]. lia.
    + rewrite ServerFacts.poll_gives_up.
      * cbn [Nat.add]. now rewrite (H Server.MAX_CONNECTION_RETRIES (Nat.le_refl _)).
      * intros j Hj. apply H. cbn [Nat.add]. lia.
  - reflexivity.
  - intros p provider_at. unfold Server.stopProvider.
    cbn [Server.stopCalled Server.waitedMs].
    pose proof (poll_grace (fun t => Server.stillRunning (provider_at t))).
    split; [reflexivity|]. split; [lia|]. split.
    + intros k Hk Hstop Hrun.
      now rewrite (ServerFacts.poll_stops _ k Server.MAX_CONNECTION_RETRIES
                     0%nat Hk Hrun Hstop).
    + intros Hrun.
      now rewrite (ServerFacts.poll_gives_up
                     (fun t => Server.stillRunning (provider_at t))
                     Server.MAX_CONNECTION_RETRIES 0%nat Hrun).
Qed.

(** C7. For every document text, a verify request for it is written
    to the backend as [verify], a space and the text; when the
    backend answers with a report from which an error count of
    zero is read, followed by the success marker, the caller of
    the request receives one result, whose status is [Verified],
    whose error count is zero and which is not a crash. *)
Theorem verify_round_trip (pid who : nat) (document T report : string) :
  snd (parseCounts (report ++ successMarker ++ JS.newline)) = 0 ->
  let request :=
    {| caller := who; uri := document; text := T; operation := Verify |} in
  let st :=
    run' [Submit request; Output (report ++ successMarker ++ JS.newline)]
         (idle pid) in
  written st = ["verify " ++ T] /\
  exists res,
    delivered st = [(request, res)] /\
    verificationStatus res = Verified /\
    errorCount res = 0 /\
    crashed res = false.
Proof.
  intros Hcount request st.
  assert (Hterm : hasTerminator' (report ++ successMarker ++ JS.newline) = true).
  { unfold hasTerminator. now rewrite contains_middle. }
  assert (Hst : st = resting pid ["verify " ++ T]
            [(request, classify' (report ++ successMarker ++ JS.newline))]).
  { unfold st. rewrite run_cons.
    change (step' (Submit request) (idle pid))
      with (serving pid request [] [encodeRequest request] []).
    rewrite run_cons, (output_serving pid _ request [] _ _ Hterm).
    reflexivity. }
  rewrite Hst. cbn [written delivered resting].
  split; [reflexivity|].
  eexists. split; [reflexivity|].
  unfold classify. rewrite contains_middle.
  destruct (parseCounts (report ++ successMarker ++ JS.newline))
    as [obligations errors].
  cbn [snd] in Hcount. subst errors. cbn. auto.
Qed.

End Protocol.

(** ** The sentinels of the specification *)

Lemma split_marker_one_frame_witness :
  feed SUCCESS_MARKER FAILURE_MARKER "" "1 verified SUCC"
  = (MoreDataNeeded, "1 verified SUCC") /\
  feed SUCCESS_MARKER FAILURE_MARKER "1 verified SUCC" ("ESS-MARKER" ++ JS.newline)
  = (Frame ("1 verified SUCC" ++ "ESS-MARKER" ++ JS.newline), "") /\
  List.length
    (fst (feedAll SUCCESS_MARKER FAILURE_MARKER
            ["1 verified SUCC"; "ESS-MARKER" ++ JS.newline] "")) = 1%nat.
Proof.
  destruct (split_marker_one_frame SUCCESS_MARKER FAILURE_MARKER
              "1 verified SUCC" ("ESS-MARKER" ++ JS.newline))
    as (H1 & H2 & _ & H4).
  - reflexivity.
  - reflexivity.
  - split; [exact H1|]. split; [exact H2 | exact H4].
Defined.

Lemma contains_nil (m : string) : contains m "" = String.prefix m "".
Proof. unfold contains. destruct m; reflexivity. Qed.

Lemma contains_cons (m : string) (a : ascii) (s : string) :
  contains m (String a s) = String.prefix m (String a s) || contains m s.
Proof.
  unfold contains. cbn [String.index].
  destruct (String.prefix m (String a s)); [reflexivity|].
  destruct (String.index 0 m s); reflexivity.
Qed.

(** A pattern that begins a text continued by [q], without beginning
    the text itself, runs over into [q]. *)
Lemma prefix_straddles (x : string) :
  forall m q,
    x <> "" ->
    String.prefix m (x ++ q) = true ->
    String.prefix m x = false ->
    overlaps m q = true.
Proof.
  induction x as [|a x IH]; intros m q Hx Hxq Hn; [congruence|].
  destruct m as [|c m]; [discriminate|].
  cbn [append String.prefix] in Hxq, Hn.
  destruct (ascii_dec c a) as [_|]; [|discriminate].
  cbn [overlaps].
  destruct x as [|b x].
  - cbn [append] in Hxq. rewrite Hxq.
    destruct m as [|d m]; [discriminate|]. reflexivity.
  - rewrite (IH m q); [apply orb_true_r | discriminate | exact Hxq | exact Hn].
Qed.

(** A pattern that occurs neither in [p] nor in [q] and cannot
    straddle their border does not occur in [p ++ q]. *)
Lemma contains_app_false (m p q : string) :
  contains m p = false ->
  contains m q = false ->
  overlaps m q = false ->
  contains m (p ++ q) = false.
Proof.
  intros Hp Hq Ho.
  induction p as [|a p IH]; [exact Hq|].
  rewrite contains_cons in Hp. apply orb_false_iff in Hp as [Hpre Hp].
  cbn [append]. rewrite contains_cons, (IH Hp), orb_false_r.
  destruct (String.prefix m (String a (p ++ q))) eqn:E; [|reflexivity].
  rewrite (prefix_straddles (String a p) m q) in Ho;
    [discriminate | discriminate | exact E | exact Hpre].
Qed.

(** With the sentinels of the specification, wherever the success
    marker is cut, a payload without a sentinel followed by the first
    part of the marker holds no sentinel, and the two chunks make one
    frame. *)
Lemma sentinel_cut_anywhere (payload : string) (i : nat) :
  hasTerminator SUCCESS_MARKER FAILURE_MARKER payload = false ->
  (0 < i < 14)%nat ->
  let chunk1 := payload ++ String.substring 0 i SUCCESS_MARKER in
  let chunk2 := String.substring i (14 - i) SUCCESS_MARKER ++ JS.newline in
  feedAll SUCCESS_MARKER FAILURE_MARKER [chunk1; chunk2] ""
  = ([payload ++ SUCCESS_MARKER ++ JS.newline], "").
Proof.
  intros Hpay Hi chunk1 chunk2.
  apply orb_false_iff in Hpay as [Hs Hf].
  assert (Hcut : String.substring 0 i SUCCESS_MARKER ++ chunk2
                 = SUCCESS_MARKER ++ JS.newline).
  { unfold chunk2.
    do 14 (destruct i as [|i]; [try lia; reflexivity|]). lia. }
  assert (Hfree : forall m, m = SUCCESS_MARKER \/ m = FAILURE_MARKER ->
            contains m (String.substring 0 i SUCCESS_MARKER) = false /\
            overlaps m (String.substring 0 i SUCCESS_MARKER) = false).
  { intros m [-> | ->];
      do 14 (destruct i as [|i]; [try lia; split; reflexivity|]); lia. }
  assert (H1 : hasTerminator SUCCESS_MARKER FAILURE_MARKER chunk1 = false).
  { unfold hasTerminator, chunk1. apply orb_false_iff. split.
    - destruct (Hfree SUCCESS_MARKER (or_introl eq_refl)).
      now apply contains_app_false.
    - destruct (Hfree FAILURE_MARKER (or_intror eq_refl)).
      now apply contains_app_false. }
  assert (Hall : chunk1 ++ chunk2 = payload ++ SUCCESS_MARKER ++ JS.newline).
  { unfold chunk1. now rewrite StrFacts.app_assoc, Hcut. }
  cbn [feedAll].
  rewrite (feed_incomplete SUCCESS_MARKER FAILURE_MARKER "" chunk1 H1).
  cbn [append feedAll].
  rewrite (feed_complete SUCCESS_MARKER FAILURE_MARKER chunk1 chunk2).
  - now rewrite Hall.
  - rewrite Hall. unfold hasTerminator. now rewrite contains_middle.
Qed.

(** ** Examples *)

Lemma results_in_submission_order_witness :
  let rs := [sampleRequest 1 "a.dfy"; sampleRequest 2 "b.dfy"] in
  let fs := ["1 verified, 0 errors " ++ SUCCESS_MARKER ++ JS.newline;
             "stack overflow " ++ FAILURE_MARKER ++ JS.newline] in
  let st :=
    run SUCCESS_MARKER FAILURE_MARKER sampleCounts (fun _ => None)
        (map Submit rs ++ map Output fs)%list (idle 7) in
  map fst (delivered st) = rs /\ List.length (delivered st) = 2%nat.
Proof.
  intros rs fs st.
  destruct (results_in_submission_order
              SUCCESS_MARKER FAILURE_MARKER sampleCounts (fun _ => None) 7)
    as [_ Hround].
  destruct (Hround rs fs) as (_ & Horder & Hcount & _).
  - reflexivity.
  - repeat constructor.
  - split; [exact Horder | exact Hcount].
Defined.

Lemma crash_resolves_then_refuses_witness :
  let r := sampleRequest 1 "a.dfy" in
  let st := serving 7 r [sampleRequest 2 "b.dfy"] [encodeRequest r] [] in
  delivered (exited 1 st) = [(r, crashResult)] /\
  supervisor (exited 1 st) = Crashed /\
  fst (submit (sampleRequest 3 "c.dfy")
         (run SUCCESS_MARKER FAILURE_MARKER sampleCounts (fun _ => None)
            [Submit (sampleRequest 4 "d.dfy"); Output "late"] (exited 1 st)))
  = NotReady.
Proof.
  intros r st.
  destruct (crash_resolves_then_refuses
              SUCCESS_MARKER FAILURE_MARKER sampleCounts (fun _ => None)
              st r 1)
    as (Hexit & _ & Hd & _ & Hc & Hrefuse & _).
  - reflexivity.
  - discriminate.
  - discriminate.
  - rewrite Hexit. split; [exact Hd|]. split; [exact Hc|].
    destruct (Hrefuse [Submit (sampleRequest 4 "d.dfy"); Output "late"]
                (sampleRequest 3 "c.dfy") eq_refl) as [Hsub _].
    cbv zeta in Hsub. rewrite Hsub. reflexivity.
Defined.

Lemma stop_is_idempotent_witness :
  (let crashedOnce := crash (serving 7 (sampleRequest 1 "a.dfy") [] [] []) in
   stop (fun _ => true) crashedOnce
   = {| after := crashedOnce; quitSent := false; graceMs := 0 |}) /\
  (let s := stop (fun k => (k <? 2)%nat)
              (serving 7 (sampleRequest 1 "a.dfy") [] [] []) in
   graceMs s = 3000 /\
   leaked (after s) = [] /\
   delivered (after s) = [(sampleRequest 1 "a.dfy", crashResult)] /\
   written (after s) = ["quit "] /\
   process (after s) = None) /\
  (let s := stop (fun _ => true) (resting 7 [] []) in
   graceMs s = 31000 /\ leaked (after s) = [7%nat]) /\
  Server.stopProvider
    (Some {| Server.referenceProvider := true; Server.compiler := true;
             Server.isRunning := true |})
    (Server.up_after 0)
  = {| Server.stopCalled := true; Server.polls := 30; Server.waitedMs := 31000 |}.
Proof.
  split; [|split; [|split]].
  - destruct (stop_is_idempotent
                (crash (serving 7 (sampleRequest 1 "a.dfy") [] [] []))
                (fun _ => true) (fun _ => true)) as [Hnone _].
    apply Hnone. reflexivity.
  - destruct (stop_is_idempotent (serving 7 (sampleRequest 1 "a.dfy") [] [] [])
                (fun k => (k <? 2)%nat) (fun _ => true))
      as (_ & _ & _ & Hlive & _).
    destruct (Hlive 7%nat eq_refl)
      as (_ & Hw & Hp & _ & _ & _ & Hd & _ & Hexits & _).
    destruct (Hexits 2%nat) as [Hg Hl].
    + unfold Server.MAX_CONNECTION_RETRIES. lia.
    + reflexivity.
    + intros j Hj. destruct j as [|[|j]]; [reflexivity | reflexivity | lia].
    + cbv zeta. split; [exact Hg|]. split; [exact Hl|].
      split; [exact Hd|]. split; [exact Hw | exact Hp].
  - destruct (stop_is_idempotent (resting 7 [] []) (fun _ => true) (fun _ => true))
      as (_ & _ & _ & Hlive & _).
    destruct (Hlive 7%nat eq_refl) as (_ & _ & _ & _ & _ & _ & _ & _ & _ & Hnever).
    apply Hnever. reflexivity.
  - destruct (stop_is_idempotent (resting 7 [] []) (fun _ => true) (fun _ => true))
      as (_ & _ & _ & _ & _ & Hprovider).
    destruct (Hprovider
                {| Server.referenceProvider := true; Server.compiler := true;
                   Server.isRunning := true |} (Server.up_after 0))
      as (_ & _ & _ & Hbound).
    apply Hbound. reflexivity.
Defined.

Lemma verify_round_trip_witness :
  let request := sampleRequest 1 "a.dfy" in
  let st :=
    run SUCCESS_MARKER FAILURE_MARKER sampleCounts (fun _ => None)
        [Submit request;
         Output ("1 verified, 0 failures " ++ SUCCESS_MARKER ++ JS.newline)]
        (idle 7) in
  written st = ["verify method m() {}"] /\
  exists res,
    delivered st = [(request, res)] /\
    verificationStatus res = Verified /\
    errorCount res = 0 /\
    crashed res = false.
Proof.
  apply (verify_round_trip SUCCESS_MARKER FAILURE_MARKER sampleCounts
           (fun _ => None) 7 1 "a.dfy" "method m() {}"
           "1 verified, 0 failures ").
  reflexivity.
Defined.

End BackendFacts.

(* ===================================================================== *)
(** * The designator of a null check *)
(* ===================================================================== *)

Module NullCommandGeneratorFacts.

Import JS JSStrings StrFacts NullCommandGenerator.

Lemma lastIndex_free (c : ascii) (s : string) :
  free_of c s = true -> lastIndex (String c "") s = None.
Proof.
  induction s as [|a s IH]; intros Hfree; [reflexivity|].
  cbn [free_of] in Hfree. apply andb_true_iff in Hfree as [Ha Hs].
  apply negb_true_iff in Ha.
  cbn [lastIndex]. rewrite (IH Hs), prefix_char, Ha. reflexivity.
Qed.

Lemma lastIndex_last (c : ascii) (pre suf : string) :
  free_of c suf = true ->
  lastIndex (String c "") (pre ++ String c suf) = Some (String.length pre).
Proof.
  intros Hfree. induction pre as [|a pre IH].
  - cbn [append lastIndex String.length].
    rewrite (lastIndex_free c suf Hfree), prefix_char, Ascii.eqb_refl.
    reflexivity.
  - cbn [append lastIndex String.length]. rewrite IH. reflexivity.
Qed.

(** A string with the character [c] splits at its last [c]. *)
Lemma split_at_last (c : ascii) (s : string) :
  free_of c s = false ->
  exists pre suf, s = pre ++ String c suf /\ free_of c suf = true.
Proof.
  induction s as [|a s IH]; intros Hfree; [discriminate|].
  destruct (free_of c s) eqn:Hs.
  - cbn [free_of] in Hfree. rewrite Hs, andb_true_r in Hfree.
    apply negb_false_iff, Ascii.eqb_eq in Hfree. subst a.
    exists "", s. split; [reflexivity | exact Hs].
  - destruct (IH eq_refl) as (pre & suf & -> & Hsuf).
    exists (String a pre), suf. split; [reflexivity | exact Hsuf].
Qed.

Lemma substr_prefix (pre rest : string) :
  pre <> "" -> substr (pre ++ rest) 0 (len pre) = pre.
Proof.
  intros Hne. unfold substr, len.
  rewrite length_app.
  assert (0 < String.length pre)%nat by (destruct pre; [congruence | simpl; lia]).
  replace (0 <? 0) with false by reflexivity.
  rewrite Z.min_l by lia. rewrite Z.max_l by lia. rewrite Z.min_l by lia.
  replace (Z.of_nat (String.length pre) <=? 0) with false
    by (symmetry; apply Z.leb_gt; lia).
  rewrite Nat2Z.id. change (Z.to_nat 0) with 0%nat.
  apply substring_prefix.
Qed.

Lemma removeMemberAcces_at_last_dot (pre suf : string) :
  free_of dot suf = true ->
  removeMemberAcces (pre ++ String dot suf)
  = if (0 <? String.length pre)%nat then pre else pre ++ String dot suf.
Proof.
  intros Hsuf. unfold removeMemberAcces, lastIndexOf.
  change "."%string with (String dot "").
  rewrite (lastIndex_last dot pre suf Hsuf).
  destruct pre as [|a pre].
  - reflexivity.
  - replace (Z.of_nat (String.length (String a pre)) >? 0) with true
      by (symmetry; apply Z.gtb_lt; simpl; lia).
    change (Z.of_nat (String.length (String a pre))) with (len (String a pre)).
    rewrite substr_prefix by discriminate. reflexivity.
Qed.

Lemma removeMemberAcces_no_dot (designator : string) :
  free_of dot designator = true -> removeMemberAcces designator = designator.
Proof.
  intros Hfree. unfold removeMemberAcces, lastIndexOf.
  change "."%string with (String dot "").
  rewrite (lastIndex_free dot designator Hfree). reflexivity.
Qed.

(** X1. The member access is removed: a designator that ends in a dot
    and a member name without dots, after a non-empty qualifier, is
    cut back to the qualifier. *)
Theorem removeMemberAcces_strips_last_member (qualifier member : string) :
  qualifier <> "" ->
  free_of dot member = true ->
  removeMemberAcces (qualifier ++ "." ++ member) = qualifier.
Proof.
  intros Hq Hm.
  change ("." ++ member) with (String dot member).
  rewrite (removeMemberAcces_at_last_dot qualifier member Hm).
  destruct qualifier; [congruence | reflexivity].
Qed.

Lemma removeMemberAcces_strips_last_member_witness :
  removeMemberAcces ("this.next" ++ "." ++ "value") = "this.next".
Proof.
  apply (removeMemberAcces_strips_last_member "this.next" "value").
  - discriminate.
  - reflexivity.
Defined.

(** X2. A designator without a dot, or whose only dot is its first
    character, is left as it is. *)
Theorem removeMemberAcces_keeps_plain_names (name : string) :
  free_of dot name = true ->
  removeMemberAcces name = name /\
  removeMemberAcces ("." ++ name) = "." ++ name.
Proof.
  intros Hfree. split.
  - now apply removeMemberAcces_no_dot.
  - change ("." ++ name) with ("" ++ String dot name).
    now rewrite (removeMemberAcces_at_last_dot "" name Hfree).
Qed.

Lemma removeMemberAcces_keeps_plain_names_witness :
  removeMemberAcces "node" = "node" /\
  removeMemberAcces ("." ++ "node") = "." ++ "node".
Proof.
  apply (removeMemberAcces_keeps_plain_names "node"). reflexivity.
Defined.

Lemma removeMemberAcces_empty (designator : string) :
  String.eqb (removeMemberAcces designator) "" = String.eqb designator "".
Proof.
  destruct (free_of dot designator) eqn:Hfree.
  - now rewrite (removeMemberAcces_no_dot designator Hfree).
  - destruct (split_at_last dot designator Hfree) as (pre & suf & -> & Hsuf).
    rewrite (removeMemberAcces_at_last_dot pre suf Hsuf).
    destruct pre as [|a pre]; reflexivity.
Qed.

(** X3. Whatever the designator, what is left of it is one of its
    prefixes, and it is empty only when the designator is: the test
    [designator !== ""] of [calculateCommands] is a test of the
    expression read from the document. *)
Theorem removeMemberAcces_is_prefix (designator : string) :
  (exists rest, designator = removeMemberAcces designator ++ rest) /\
  (removeMemberAcces designator = "" <-> designator = "").
Proof.
  destruct (free_of dot designator) eqn:Hfree.
  - rewrite (removeMemberAcces_no_dot designator Hfree). split.
    + exists "". now rewrite app_empty_r.
    + reflexivity.
  - destruct (split_at_last dot designator Hfree) as (pre & suf & -> & Hsuf).
    rewrite (removeMemberAcces_at_last_dot pre suf Hsuf).
    destruct pre as [|a pre]; cbn [String.length Nat.ltb Nat.leb].
    + split; [exists ""; now rewrite app_empty_r | reflexivity].
    + split; [exists (String dot suf); reflexivity|].
      split; discriminate.
Qed.

Section Generator.

Variables Position Range DafnySymbol DocId Error : Type.
Variables NullWarning EditTextCommand EOL : string.
Variable message : string.
Variable range : Range.
Variable uri : string.
Variable dummyDocId : DocId.
Variable expression : string.
Variable getAllSymbols : Promise.t (list DafnySymbol) Error.
Variable methodAt : list DafnySymbol -> Range -> option DafnySymbol.
Variable findInsertionPosition : option DafnySymbol -> insertion Position.

Local Abbreviation commandsOf :=
  (calculateCommands Position Range DafnySymbol DocId Error
     NullWarning EditTextCommand EOL message range uri dummyDocId
     expression getAllSymbols methodAt findInsertionPosition).

(** The command [buildNullCheckCommand] pushes for a designator. *)
Local Abbreviation nullCheck p designator :=
  {| title := "Add null check: requires " ++ designator ++ " != null";
     command := EditTextCommand;
     argUri := uri;
     argDocId := dummyDocId;
     argEdits :=
       [{| position := p;
           newText := " " ++ ("requires " ++ designator ++ " != null") ++ EOL |}] |}.

(** X4. [calculateCommands] never rejects. It answers with the
    commands the generator already had when the diagnostic is no
    null warning, when the expression read from the document is
    empty, or when no insertion position is found; with these
    commands and one more, the null check for the expression
    without its member access, when a position is found; and with
    no command at all when the symbol service fails. *)
Theorem calculateCommands_adds_one_null_check (commands : list (Command Position DocId)) :
  Promise.is_rejected (commandsOf commands) = false /\
  commandsOf commands
  = if (indexOf message NullWarning 0 >? -1) && negb (String.eqb expression "")
    then
      match getAllSymbols with
      | Promise.Pending => Promise.Pending
      | Promise.Rejected _ => Promise.Fulfilled []
      | Promise.Fulfilled symbols =>
          match findInsertionPosition (methodAt symbols range) with
          | At p =>
              Promise.Fulfilled
                (commands ++ [nullCheck p (removeMemberAcces expression)])%list
          | Nowhere | Dummy => Promise.Fulfilled commands
          end
      end
    else Promise.Fulfilled commands.
Proof.
  assert (Hempty : String.eqb (removeMemberAcces expression) ""
                   = String.eqb expression "").
  { apply removeMemberAcces_empty. }
  assert (Heq : commandsOf commands
    = if (indexOf message NullWarning 0 >? -1) && negb (String.eqb expression "")
      then
        match getAllSymbols with
        | Promise.Pending => Promise.Pending
        | Promise.Rejected _ => Promise.Fulfilled []
        | Promise.Fulfilled symbols =>
            match findInsertionPosition (methodAt symbols range) with
            | At p =>
                Promise.Fulfilled
                  (commands ++ [nullCheck p (removeMemberAcces expression)])%list
            | Nowhere | Dummy => Promise.Fulfilled commands
            end
        end
      else Promise.Fulfilled commands).
  { unfold calculateCommands, parseDesignator.
    destruct (indexOf message NullWarning 0 >? -1); [|reflexivity].
    cbv zeta. rewrite Hempty.
    destruct (String.eqb expression ""); [reflexivity|].
    cbn [andb negb].
    unfold Promise.catch, Promise.then1, Promise.then2, addNecessaryNullCheck.
    destruct getAllSymbols as [|symbols|e]; [reflexivity| |reflexivity].
    cbn [Promise.of_completion].
    destruct (findInsertionPosition (methodAt symbols range)); reflexivity. }
  split; [|exact Heq].
  rewrite Heq.
  destruct ((indexOf message NullWarning 0 >? -1) && negb (String.eqb expression ""));
    [|reflexivity].
  destruct getAllSymbols as [|symbols|e]; [reflexivity| |reflexivity].
  destruct (findInsertionPosition (methodAt symbols range)); reflexivity.
Qed.

End Generator.

End NullCommandGeneratorFacts.

(* ===================================================================== *)
(** * More about the version probe *)
(* ===================================================================== *)

Module ProbeTraceFacts.

Import JS JSStrings StrFacts DependencyVerifier DependencyVerifierFacts ProbeTrace.

Lemma substring_nil (n m : nat) : String.substring n m "" = "".
Proof. destruct n, m; reflexivity. Qed.

Lemma substring_app_l (s t : string) :
  forall m n, (m + n <= String.length s)%nat ->
    String.substring m n (s ++ t) = String.substring m n s.
Proof.
  induction s as [|c s IH]; intros m n Hle.
  - cbn [String.length] in Hle.
    assert (m = 0%nat) by lia. assert (n = 0%nat) by lia. subst.
    cbn [append]. now destruct t.
  - cbn [append]. destruct m as [|m].
    + destruct n as [|n]; [reflexivity|].
      cbn [String.substring]. rewrite IH; [reflexivity|].
      cbn [String.length] in Hle. lia.
    + cbn [String.substring]. apply IH. cbn [String.length] in Hle. lia.
Qed.

Lemma length_substring_le (s : string) :
  forall m n, (String.length (String.substring m n s) <= String.length s - m)%nat.
Proof.
  induction s as [|c s IH]; intros m n.
  - rewrite substring_nil. cbn. lia.
  - destruct m as [|m].
    + destruct n as [|n]; cbn [String.substring String.length]; [lia|].
      pose proof (IH 0%nat n). lia.
    + cbn [String.substring String.length]. pose proof (IH m n). lia.
Qed.

(** An occurrence of a non-empty pattern lies within the string. *)
Lemma occurs_within (pat s : string) (k : nat) :
  pat <> "" -> occurs_at pat s k ->
  (k + String.length pat <= String.length s)%nat.
Proof.
  intros Hne Hocc. unfold occurs_at in Hocc.
  pose proof (length_substring_le s k (String.length pat)) as Hle.
  rewrite Hocc in Hle.
  assert (0 < String.length pat)%nat by (destruct pat; [congruence | simpl; lia]).
  lia.
Qed.

Lemma index_ge (pat s : string) :
  forall n m, String.index n pat s = Some m -> (n <= m)%nat.
Proof.
  induction s as [|b s IH]; intros n m E.
  - destruct n; [lia|discriminate].
  - destruct n as [|n]; [lia|].
    cbn [String.index] in E.
    destruct (String.index n pat s) as [k|] eqn:Ek; [|discriminate].
    injection E as <-. pose proof (IH n k Ek). lia.
Qed.

(** What [index] finds stays where it is when the string grows. *)
Lemma index_app_stable (pat s t : string) (n k : nat) :
  pat <> "" ->
  String.index n pat s = Some k ->
  String.index n pat (s ++ t) = Some k.
Proof.
  intros Hne E.
  pose proof (index_correct1 _ _ _ _ E) as Hocc.
  pose proof (index_ge _ _ _ _ E) as Hnk.
  pose proof (occurs_within pat s k Hne Hocc) as Hin.
  assert (Hocc' : String.substring k (String.length pat) (s ++ t) = pat).
  { rewrite substring_app_l; [exact Hocc | exact Hin]. }
  destruct (String.index n pat (s ++ t)) as [m|] eqn:E'.
  - f_equal.
    destruct (Nat.lt_trichotomy m k) as [Hlt|[Heq|Hgt]]; [|exact Heq|].
    + exfalso.
      pose proof (index_ge _ _ _ _ E') as Hnm.
      apply (index_correct2 _ _ _ _ E m Hnm Hlt).
      rewrite <- (substring_app_l s t m (String.length pat)) by lia.
      exact (index_correct1 _ _ _ _ E').
    + exfalso.
      exact (index_correct2 _ _ _ _ E' k Hnk Hgt Hocc').
  - exfalso. exact (index_correct3 _ k _ _ E' Hne Hnk Hocc').
Qed.

Lemma index_none_prefix (pat s t : string) :
  pat <> "" ->
  String.index 0 pat (s ++ t) = None -> String.index 0 pat s = None.
Proof.
  intros Hne E.
  destruct (String.index 0 pat s) as [k|] eqn:Es; [|reflexivity].
  rewrite (index_app_stable pat s t 0 k Hne Es) in E. discriminate.
Qed.

Lemma parseVersion_found (buf : string) (s : nat) :
  String.index 0 VERSION_STRING buf = Some s ->
  exists v, parseVersion buf = Some v.
Proof.
  intros E. unfold parseVersion, indexOf.
  rewrite clamp_inside by (pose proof (len_nonneg buf); lia).
  change (Z.to_nat 0) with 0%nat. rewrite E.
  replace (Z.of_nat s >? -1) with true by (symmetry; apply Z.gtb_lt; lia).
  eexists. reflexivity.
Qed.

(** X5. [parseVersion] returns [undefined] exactly for the buffers in
    which the marker [VERSION:] occurs nowhere. *)
Theorem parseVersion_undefined_iff (buf : string) :
  parseVersion buf = None <->
  (forall k, ~ occurs_at VERSION_STRING buf k).
Proof.
  split.
  - intros Hp k Hocc.
    destruct (String.index 0 VERSION_STRING buf) as [s|] eqn:E.
    + destruct (parseVersion_found buf s E) as [v Hv]. congruence.
    + apply (index_correct3 0 k _ _ E); [discriminate | lia | exact Hocc].
  - intros Hno. apply parseVersion_none.
    destruct (String.index 0 VERSION_STRING buf) as [s|] eqn:E; [|reflexivity].
    exfalso. apply (Hno s). exact (index_correct1 _ _ _ _ E).
Qed.

Lemma parseVersion_undefined_iff_witness :
  parseVersion "Dafny 2.3" = None <->
  (forall k, ~ occurs_at VERSION_STRING "Dafny 2.3" k).
Proof. exact (parseVersion_undefined_iff "Dafny 2.3"). Defined.

Lemma substring_head (s : string) :
  forall m, exists b, s = String.substring 0 m s ++ b.
Proof.
  induction s as [|c s IH]; intros m.
  - exists "". now rewrite substring_nil.
  - destruct m as [|m].
    + exists (String c s). reflexivity.
    + destruct (IH m) as [b Hb]. exists b.
      cbn [String.substring append]. now rewrite <- Hb.
Qed.

Lemma substring_infix (s : string) :
  forall n m, exists a b, s = a ++ String.substring n m s ++ b.
Proof.
  induction s as [|c s IH]; intros n m.
  - exists "", "". now rewrite substring_nil.
  - destruct n as [|n].
    + destruct (substring_head (String c s) m) as [b Hb].
      exists "", b. exact Hb.
    + destruct (IH n m) as (a & b & Hab).
      exists (String c a), b. cbn [String.substring append]. now rewrite <- Hab.
Qed.

(** X6. What [parseVersion] returns is a piece of the buffer: the
    buffer is some text, the version, and some more text. *)
Theorem parseVersion_is_piece (buf v : string) :
  parseVersion buf = Some v ->
  exists before after, buf = before ++ v ++ after.
Proof.
  unfold parseVersion.
  destruct (indexOf buf VERSION_STRING 0 >? -1); [|discriminate].
  intros H. injection H as <-. unfold substring.
  apply substring_infix.
Qed.

Lemma parseVersion_is_piece_witness :
  exists before after,
    "Dafny " ++ "VERSION:2.3" ++ newline ++ "[SUCCESS]"
    = before ++ "2.3" ++ after.
Proof.
  apply (parseVersion_is_piece
           ("Dafny " ++ "VERSION:2.3" ++ newline ++ "[SUCCESS]") "2.3").
  reflexivity.
Defined.

Lemma probe_run_app (evs1 evs2 : list event) (st : probe) :
  run (evs1 ++ evs2)%list st = run evs2 (run evs1 st).
Proof. unfold run. apply fold_left_app. Qed.

(** X7. The first settlement is final: once the handshake is
    fulfilled with a version, no later event, be it an error or the
    exit of the process with a code other than zero, changes it. *)
Theorem version_is_final (before after : list event) (v : string) :
  promise (run before verifyDafnyServer) = Promise.Fulfilled v ->
  promise (run (before ++ after)%list verifyDafnyServer) = Promise.Fulfilled v.
Proof.
  intros Hv. rewrite probe_run_app, settled_stable_run; [exact Hv|].
  rewrite Hv. discriminate.
Qed.

Lemma version_is_final_witness :
  promise (run ([Data ("VERSION:2.3" ++ newline)]
                ++ [Exit 1; StdinError "EPIPE"])%list verifyDafnyServer)
  = Promise.Fulfilled "2.3".
Proof.
  apply (version_is_final [Data ("VERSION:2.3" ++ newline)]
           [Exit 1; StdinError "EPIPE"] "2.3").
  reflexivity.
Defined.

Lemma quiet_run (evs : list event) :
  forall st,
    forallb quiet evs = true ->
    String.index 0 VERSION_STRING (outBuf st ++ joined (chunks evs)) = None ->
    promise (run evs st) = promise st /\
    quits (calls (run evs st)) = quits (calls st).
Proof.
  induction evs as [|ev evs IH]; intros st Hq Hno; [split; reflexivity|].
  cbn [forallb] in Hq. apply andb_true_iff in Hq as [Hev Hevs].
  change (run (ev :: evs) st) with (run evs (handle ev st)).
  unfold quiet in Hev.
  destruct ev as [e|e|e|chunk|code]; cbn [failure] in Hev; try discriminate.
  - (* output without a marker *)
    cbn [chunks flat_map List.app joined fold_right] in Hno.
    fold (chunks evs) in Hno. fold (joined (chunks evs)) in Hno.
    rewrite <- app_assoc in Hno.
    assert (Hnone : parseVersion (outBuf st ++ chunk) = None).
    { apply parseVersion_none.
      apply (index_none_prefix _ _ (joined (chunks evs))); [discriminate|exact Hno]. }
    assert (Hst : handle (Data chunk) st
                  = {| outBuf := outBuf st ++ chunk; promise := promise st;
                       calls := calls st; spawned := spawned st |}).
    { cbn [handle]. unfold receive, onData. cbn [outBuf]. now rewrite Hnone. }
    rewrite Hst.
    destruct (IH {| outBuf := outBuf st ++ chunk; promise := promise st;
                    calls := calls st; spawned := spawned st |} Hevs Hno)
      as [Hp Hc].
    split; assumption.
  - (* a clean exit *)
    destruct (code =? 0) eqn:Ec; [|discriminate].
    assert (Hst : handle (Exit code) st = perform (ConsoleLog code) st).
    { cbn [handle]. unfold onExit. now rewrite Ec. }
    rewrite Hst.
    destruct (IH (perform (ConsoleLog code) st) Hevs Hno) as [Hp Hc].
    split; [exact Hp|].
    rewrite Hc. cbn [perform calls]. rewrite quits_app. cbn. lia.
Qed.

(** X8. A backend that never prints the marker and fails in no way
    leaves the handshake pending for ever, however often it exits
    with code zero: the promise of [verifyDafnyServer] is neither
    fulfilled nor rejected, and no quit is sent. *)
Theorem clean_exit_never_settles (evs : list event) :
  forallb quiet evs = true ->
  String.index 0 VERSION_STRING (joined (chunks evs)) = None ->
  promise (run evs verifyDafnyServer) = Promise.Pending /\
  quits (calls (run evs verifyDafnyServer)) = 0%nat.
Proof.
  intros Hq Hno. apply (quiet_run evs verifyDafnyServer Hq Hno).
Qed.

Lemma clean_exit_never_settles_witness :
  promise (run [Data "Usage: mono "; Data "DafnyServer.exe"; Exit 0]
             verifyDafnyServer) = Promise.Pending /\
  quits (calls (run [Data "Usage: mono "; Data "DafnyServer.exe"; Exit 0]
                  verifyDafnyServer)) = 0%nat.
Proof.
  apply (clean_exit_never_settles
           [Data "Usage: mono "; Data "DafnyServer.exe"; Exit 0]).
  - reflexivity.
  - reflexivity.
Defined.

Lemma first_marker_stays (pre tail : string) :
  String.index 0 VERSION_STRING (pre ++ VERSION_STRING) = Some (String.length pre) ->
  forall k, (k < String.length pre)%nat ->
    ~ occurs_at VERSION_STRING (pre ++ VERSION_STRING ++ tail) k.
Proof.
  intros E k Hk.
  assert (E' : String.index 0 VERSION_STRING ((pre ++ VERSION_STRING) ++ tail)
               = Some (String.length pre)).
  { apply index_app_stable; [discriminate | exact E]. }
  rewrite app_assoc in E'.
  apply (index_correct2 _ _ _ _ E' k); [lia | exact Hk].
Qed.

Lemma resolve_twice {A E} (p : Promise.t A E) (v : A) :
  Promise.resolve (Promise.resolve p v) v = Promise.resolve p v.
Proof. destruct p; reflexivity. Qed.

Lemma more_output (pre v : string) (more : list string) :
  String.index 0 VERSION_STRING (pre ++ VERSION_STRING) = Some (String.length pre) ->
  free_of LF v = true ->
  v <> "" ->
  forall st rest,
    outBuf st = pre ++ VERSION_STRING ++ v ++ newline ++ rest ->
    outBuf (run (map Data more) st)
    = pre ++ VERSION_STRING ++ v ++ newline ++ rest ++ joined more /\
    quits (calls (run (map Data more) st))
    = (quits (calls st) + List.length more)%nat /\
    promise (run (map Data more) st)
    = match more with
      | [] => promise st
      | _ :: _ => Promise.resolve (promise st) v
      end.
Proof.
  intros Hfirst Hv Hne.
  induction more as [|chunk more IH]; intros st rest Hbuf.
  - cbn [map joined fold_right List.length]. unfold run. cbn [fold_left].
    rewrite app_empty_r, Nat.add_0_r. auto.
  - cbn [map]. change (run (Data chunk :: map Data more) st)
      with (run (map Data more) (handle (Data chunk) st)).
    set (st1 := {| outBuf := outBuf st ++ chunk; promise := promise st;
                   calls := calls st; spawned := spawned st |}).
    assert (Hbuf1 : outBuf st1
                    = pre ++ VERSION_STRING ++ v ++ newline ++ (rest ++ chunk)).
    { unfold st1. cbn [outBuf]. rewrite Hbuf.
      now rewrite !app_assoc. }
    assert (Hp : parseVersion (outBuf st1) = Some v).
    { rewrite Hbuf1. apply parseVersion_line; [|exact Hv].
      now apply first_marker_stays. }
    assert (Hst : handle (Data chunk) st
                  = perform (Resolve v) (perform (Send Quit) st1)).
    { cbn [handle]. unfold receive. fold st1. now apply onData_version. }
    rewrite Hst.
    destruct (IH (perform (Resolve v) (perform (Send Quit) st1)) (rest ++ chunk))
      as (Hb & Hq & Hpr).
    { cbn [perform outBuf]. exact Hbuf1. }
    split; [|split].
    + rewrite Hb. cbn [joined fold_right]. now rewrite !app_assoc.
    + rewrite Hq. cbn [perform calls]. rewrite !quits_app.
      unfold st1. cbn [calls List.length]. cbn. lia.
    + rewrite Hpr. cbn [perform promise]. unfold st1. cbn [promise].
      destruct more; [reflexivity | apply resolve_twice].
Qed.

(** X9. Once the buffer holds the line of the first marker, with a
    version that is not empty, every further chunk of output leaves
    the parsed version as it is, sends one more quit command and
    calls [resolve] again, which no longer changes the promise: [n]
    further chunks send [n] further quits. *)
Theorem every_chunk_quits_again (pre v rest : string) (more : list string)
    (st : probe) :
  String.index 0 VERSION_STRING (pre ++ VERSION_STRING) = Some (String.length pre) ->
  free_of LF v = true ->
  v <> "" ->
  outBuf st = pre ++ VERSION_STRING ++ v ++ newline ++ rest ->
  parseVersion (outBuf (run (map Data more) st)) = Some v /\
  quits (calls (run (map Data more) st))
  = (quits (calls st) + List.length more)%nat /\
  promise (run (map Data more) st)
  = match more with
    | [] => promise st
    | _ :: _ => Promise.resolve (promise st) v
    end.
Proof.
  intros Hfirst Hv Hne Hbuf.
  destruct (more_output pre v more Hfirst Hv Hne st rest Hbuf) as (Hb & Hq & Hp).
  split; [|split; assumption].
  rewrite Hb. apply parseVersion_line; [|exact Hv].
  now apply first_marker_stays.
Qed.

Lemma every_chunk_quits_again_witness :
  let st := run [Data ("VERSION:2.3" ++ newline)] verifyDafnyServer in
  let st' := run (map Data ["[SUCCESS] "; "[[DAFNY-SERVER: EOM]]"]) st in
  parseVersion (outBuf st') = Some "2.3" /\
  quits (calls st') = 3%nat /\
  promise st' = Promise.Fulfilled "2.3".
Proof.
  apply (every_chunk_quits_again "" "2.3" ""
           ["[SUCCESS] "; "[[DAFNY-SERVER: EOM]]"]
           (run [Data ("VERSION:2.3" ++ newline)] verifyDafnyServer)).
  - reflexivity.
  - reflexivity.
  - discriminate.
  - reflexivity.
Defined.

End ProbeTraceFacts.

(* ===================================================================== *)
(** * The code lens provider *)
(* ===================================================================== *)

Module BaseCodeLensProviderFacts.

Import BaseCodeLensProvider.

Section Provider.

Variables DafnySymbol Error : Type.
Variable needsCodeLens : DafnySymbol -> bool.
Variable typeError : Error.
Variable getSymbols : TextDocument -> Promise.t (list (SymbolTable DafnySymbol)) Error.

Local Abbreviation provide :=
  (provideCodeLenses DafnySymbol Error needsCodeLens typeError getSymbols).

Local Abbreviation isTableOf document :=
  (fun table : SymbolTable DafnySymbol =>
     String.eqb (fileName table) (uri document)).

Lemma provide_enabled (document : TextDocument) :
  provide true (Some document)
  = match getSymbols document with
    | Promise.Pending => Promise.Pending
    | Promise.Rejected _ => Promise.Fulfilled []
    | Promise.Fulfilled symbolTables =>
        match List.find (isTableOf document) symbolTables with
        | Some table =>
            Promise.Fulfilled (map mkLens (filter needsCodeLens (symbols table)))
        | None => Promise.Fulfilled []
        end
    end.
Proof.
  unfold provideCodeLenses, Promise.catch, Promise.then1, Promise.then2, lensesOf.
  cbn [negb].
  destruct (getSymbols document) as [|symbolTables|e]; [reflexivity| |reflexivity].
  destruct (List.find _ symbolTables); reflexivity.
Qed.

(** X10. [provideCodeLenses] never rejects: a provider that is
    switched off and a missing document give no lens, and so does a
    symbol service that fails. *)
Theorem provideCodeLenses_never_rejects (enabled : bool)
    (document : option TextDocument) :
  Promise.is_rejected (provide enabled document) = false /\
  provide false document = Promise.Fulfilled [] /\
  provide enabled None = Promise.Fulfilled [] /\
  (forall d e, getSymbols d = Promise.Rejected e ->
     provide true (Some d) = Promise.Fulfilled []).
Proof.
  split; [|split; [|split]].
  - destruct document as [d|]; [|reflexivity].
    destruct enabled; [|reflexivity].
    rewrite provide_enabled.
    destruct (getSymbols d) as [|symbolTables|e]; [reflexivity| |reflexivity].
    destruct (List.find _ symbolTables); reflexivity.
  - destruct document; reflexivity.
  - reflexivity.
  - intros d e He. rewrite provide_enabled, He. reflexivity.
Qed.

Lemma find_first {A} (f : A -> bool) (before after : list A) (x : A) :
  Forall (fun y => f y = false) before ->
  f x = true ->
  List.find f (before ++ x :: after)%list = Some x.
Proof.
  intros Hb Hx. induction Hb as [|y before Hy _ IH]; cbn [List.app List.find].
  - now rewrite Hx.
  - now rewrite Hy.
Qed.

Lemma find_none {A} (f : A -> bool) (l : list A) :
  Forall (fun y => f y = false) l -> List.find f l = None.
Proof.
  intros H. induction H as [|y l Hy _ IH]; cbn [List.find]; [reflexivity|].
  now rewrite Hy.
Qed.

(** X11. The lenses are those of the first table whose file name is
    the uri of the document, whatever tables follow it: one lens
    for each symbol of that table that needs one, in the order of
    the symbols, and for no other symbol. *)
Theorem provideCodeLenses_first_table (document : TextDocument)
    (before after : list (SymbolTable DafnySymbol))
    (table : SymbolTable DafnySymbol) :
  getSymbols document = Promise.Fulfilled (before ++ table :: after)%list ->
  Forall (fun t => fileName t <> uri document) before ->
  fileName table = uri document ->
  provide true (Some document)
  = Promise.Fulfilled (map mkLens (filter needsCodeLens (symbols table))) /\
  (forall s, In (mkLens s) (map mkLens (filter needsCodeLens (symbols table)))
             <-> In s (symbols table) /\ needsCodeLens s = true).
Proof.
  intros Hg Hb Ht. split.
  - rewrite provide_enabled, Hg, (find_first _ before after table).
    + reflexivity.
    + eapply Forall_impl; [|exact Hb].
      intros t Hne. now apply String.eqb_neq.
    + now apply String.eqb_eq.
  - intros s. rewrite in_map_iff. split.
    + intros (s' & Heq & Hin). injection Heq as ->.
      now apply filter_In in Hin.
    + intros Hin. exists s. split; [reflexivity|]. now apply filter_In.
Qed.

(** X12. When the symbol service knows no table for the uri of the
    document, reading the symbols of the missing table throws, the
    error is caught, and the answer is the empty list: the same
    answer as for a document none of whose symbols needs a lens. *)
Theorem provideCodeLenses_unknown_document (document : TextDocument)
    (symbolTables : list (SymbolTable DafnySymbol)) :
  getSymbols document = Promise.Fulfilled symbolTables ->
  Forall (fun t => fileName t <> uri document) symbolTables ->
  lensesOf DafnySymbol Error needsCodeLens typeError document symbolTables
  = Promise.Throw typeError /\
  provide true (Some document) = Promise.Fulfilled [].
Proof.
  intros Hg Hnone.
  assert (Hfind : List.find (isTableOf document) symbolTables = None).
  { apply find_none. eapply Forall_impl; [|exact Hnone].
    intros t Hne. now apply String.eqb_neq. }
  split.
  - unfold lensesOf. now rewrite Hfind.
  - rewrite provide_enabled, Hg, Hfind. reflexivity.
Qed.

End Provider.

(** ** Examples *)

Lemma provideCodeLenses_first_table_witness :
  let tables :=
    [mkTable "lib.dfy" [1%nat; 2%nat];
     mkTable "main.dfy" [3%nat; 4%nat; 5%nat; 6%nat];
     mkTable "main.dfy" [7%nat]] in
  provideCodeLenses nat string Nat.even "TypeError"
    (fun _ => Promise.Fulfilled tables) true (Some (mkDocument "main.dfy"))
  = Promise.Fulfilled [mkLens 4%nat; mkLens 6%nat].
Proof.
  intros tables.
  destruct (provideCodeLenses_first_table nat string Nat.even "TypeError"
              (fun _ => Promise.Fulfilled tables) (mkDocument "main.dfy")
              [mkTable "lib.dfy" [1%nat; 2%nat]]
              [mkTable "main.dfy" [7%nat]]
              (mkTable "main.dfy" [3%nat; 4%nat; 5%nat; 6%nat]))
    as [Hlenses _].
  - reflexivity.
  - repeat constructor. discriminate.
  - reflexivity.
  - exact Hlenses.
Defined.

Lemma provideCodeLenses_unknown_document_witness :
  provideCodeLenses nat string Nat.even "TypeError"
    (fun _ => Promise.Fulfilled [mkTable "lib.dfy" [2%nat]])
    true (Some (mkDocument "main.dfy"))
  = Promise.Fulfilled [].
Proof.
  destruct (provideCodeLenses_unknown_document nat string Nat.even "TypeError"
              (fun _ => Promise.Fulfilled [mkTable "lib.dfy" [2%nat]])
              (mkDocument "main.dfy") [mkTable "lib.dfy" [2%nat]])
    as [_ Hnone].
  - reflexivity.
  - repeat constructor. discriminate.
  - exact Hnone.
Defined.

Lemma provideCodeLenses_never_rejects_witness :
  provideCodeLenses nat string Nat.even "TypeError"
    (fun _ => Promise.Rejected "symbol service down") true
    (Some (mkDocument "main.dfy"))
  = Promise.Fulfilled [].
Proof.
  destruct (provideCodeLenses_never_rejects nat string Nat.even "TypeError"
              (fun _ => Promise.Rejected "symbol service down") true None)
    as (_ & _ & _ & Hfail).
  apply (Hfail (mkDocument "main.dfy") "symbol service down"). reflexivity.
Defined.

End BaseCodeLensProviderFacts.

(* ===================================================================== *)
(** * More about the connection handlers *)
(* ===================================================================== *)

Module HandlersFacts.

Import Handlers.

(** ** Configuration changes *)

Section Configuration.

Variable Settings : Type.

Lemma last_cons {A} (l : list A) :
  forall x d, last (x :: l) d = last l x.
Proof.
  induction l as [|a l IH]; intros x d; [reflexivity|].
  change (last (x :: a :: l) d) with (last (a :: l) d).
  now rewrite !IH.
Qed.

Lemma configure_started (changes : list Settings) :
  forall g : globals Settings,
    started g = true ->
    probes (configure Settings changes g) = probes g /\
    started (configure Settings changes g) = true /\
    settings (configure Settings changes g)
    = match changes with
      | [] => settings g
      | c :: cs => Some (last cs c)
      end.
Proof.
  induction changes as [|c cs IH]; intros g Hs; [auto|].
  cbn [configure fold_left].
  fold (configure Settings cs (onDidChangeConfiguration Settings c g)).
  unfold onDidChangeConfiguration. rewrite Hs. cbn [negb].
  destruct (IH {| settings := Some c; started := true; probes := probes g |}
              eq_refl) as (Hp & Hst & Hset).
  rewrite Hp, Hst, Hset. cbn [probes settings].
  repeat split. destruct cs as [|s cs]; [reflexivity|].
  now rewrite last_cons.
Qed.

(** X13. However many times the configuration changes, the first
    change starts the verification of the dependencies and no later
    one does: after one change or more, [verifyDependencies] has
    run exactly once, and the settings are those of the last
    change. *)
Theorem dependencies_verified_once (change : Settings) (changes : list Settings) :
  let g := configure Settings (change :: changes) (initially Settings) in
  probes g = 1%nat /\
  started g = true /\
  settings g = Some (last changes change).
Proof.
  cbn [configure fold_left].
  fold (configure Settings changes
          (onDidChangeConfiguration Settings change (initially Settings))).
  change (onDidChangeConfiguration Settings change (initially Settings))
    with {| settings := Some change; started := true; probes := 1 |}.
  destruct (configure_started changes
              {| settings := Some change; started := true; probes := 1 |} eq_refl)
    as (Hp & Hst & Hset).
  rewrite Hp, Hst, Hset. cbn [probes settings].
  repeat split. destruct changes as [|s changes]; [reflexivity|].
  now rewrite last_cons.
Qed.

End Configuration.

(** ** Rename requests *)

Section Rename.

Variables TextDocument Position DafnySymbol Changes Error : Type.
Variable DocumentDecorator : Type.
Variable newDocumentDecorator :
  option TextDocument -> Promise.completion DocumentDecorator Error.
Variable getWordAtPosition :
  DocumentDecorator -> Position -> Promise.completion string Error.
Variable getAllSymbols :
  option TextDocument ->
  Promise.completion (Promise.t (list DafnySymbol) Error) Error.
Variable holderCollectRenamings :
  string -> string -> list DafnySymbol -> Position ->
  Promise.completion Changes Error.
Variable couldNotPrepare : string -> Position -> string.

Local Abbreviation rename :=
  (onRenameRequest TextDocument Position DafnySymbol Changes Error
     DocumentDecorator newDocumentDecorator getWordAtPosition
     getAllSymbols holderCollectRenamings couldNotPrepare).

Lemma rename_ready (document : option TextDocument)
    (position : Position) (newName : string) :
  rename true document position newName
  = match newDocumentDecorator document with
    | Promise.Throw e => Promise.Rejected (Passed e)
    | Promise.Return documentDecorator =>
        match getWordAtPosition documentDecorator position with
        | Promise.Throw e => Promise.Rejected (Passed e)
        | Promise.Return word =>
            match getAllSymbols document with
            | Promise.Throw e => Promise.Rejected (Passed e)
            | Promise.Return Promise.Pending => Promise.Pending
            | Promise.Return (Promise.Rejected _) =>
                Promise.Fulfilled RenameProvider.emptyEdit
            | Promise.Return (Promise.Fulfilled symbols) =>
                match holderCollectRenamings word newName symbols position with
                | Promise.Return c =>
                    Promise.Fulfilled {| RenameProvider.changes := Some c |}
                | Promise.Throw _ => Promise.Fulfilled RenameProvider.emptyEdit
                end
            end
        end
    end.
Proof.
  unfold onRenameRequest.
  rewrite RenameProviderFacts.provideRenameEdits_steps.
  destruct (newDocumentDecorator document) as [documentDecorator|e]; [|reflexivity].
  destruct (getWordAtPosition documentDecorator position) as [word|e]; [|reflexivity].
  destruct (getAllSymbols document) as [[|symbols|e]|e]; try reflexivity.
  destruct (holderCollectRenamings word newName symbols position); reflexivity.
Qed.

(** X14. With a rename provider, a rename request is rejected only
    by an exception thrown before the rename provider has attached
    its handlers, while the decorator is built, the word is read or
    the symbol service is called, and then with that exception: the
    request for a document that is not known is rejected in this
    way when the decorator cannot be built without one. The error
    the handler throws for a [null] edit cannot occur, and a symbol
    service whose promise rejects is answered with the empty edit,
    as a rename that changes nothing. Without a provider the
    request is rejected at once. *)
Theorem rename_request_rejects_only_thrown (document : option TextDocument)
    (position : Position) (newName : string) :
  (forall r, rename true document position newName = Promise.Rejected r ->
     exists e, r = Passed e /\
       (newDocumentDecorator document = Promise.Throw e \/
        (exists documentDecorator,
           newDocumentDecorator document = Promise.Return documentDecorator /\
           (getWordAtPosition documentDecorator position = Promise.Throw e \/
            getAllSymbols document = Promise.Throw e)))) /\
  (forall e, newDocumentDecorator document = Promise.Throw e ->
     rename true document position newName = Promise.Rejected (Passed e)) /\
  (forall documentDecorator word e,
     newDocumentDecorator document = Promise.Return documentDecorator ->
     getWordAtPosition documentDecorator position = Promise.Return word ->
     getAllSymbols document = Promise.Return (Promise.Rejected e) ->
     rename true document position newName
     = Promise.Fulfilled RenameProvider.emptyEdit) /\
  rename false document position newName
  = Promise.Rejected (Refused NotReadyText).
Proof.
  split; [|split; [|split]].
  - intros r. rewrite rename_ready.
    destruct (newDocumentDecorator document) as [documentDecorator|e] eqn:Hd.
    + destruct (getWordAtPosition documentDecorator position) as [word|e] eqn:Hw.
      * destruct (getAllSymbols document) as [[|symbols|e]|e] eqn:Hs;
          try discriminate.
        -- destruct (holderCollectRenamings word newName symbols position);
             discriminate.
        -- intros H. injection H as <-. exists e. split; [reflexivity|].
           right. exists documentDecorator. split; [reflexivity | now right].
      * intros H. injection H as <-. exists e. split; [reflexivity|].
        right. exists documentDecorator. split; [reflexivity | now left].
    + intros H. injection H as <-. exists e. split; [reflexivity | now left].
  - intros e Hd. now rewrite rename_ready, Hd.
  - intros documentDecorator word e Hd Hw Hs.
    now rewrite rename_ready, Hd, Hw, Hs.
  - reflexivity.
Qed.

End Rename.

(** ** Code lenses *)

Section Lenses.

Variables Lens CodeLens Error : Type.
Variable getCodeLens : Lens -> CodeLens.
Variable stringify : CodeLens -> string.
Variable resolveCodeLens : Lens -> Promise.t (option CodeLens) Error.
Variable couldNotResolve : CodeLens -> Lens -> string.

Local Abbreviation keyOf lens := (stringify (getCodeLens lens)).
Local Abbreviation lookup' := (lookup Lens).
Local Abbreviation rememberAll' := (rememberAll Lens CodeLens getCodeLens stringify).
Local Abbreviation onCodeLens' :=
  (onCodeLens Lens CodeLens Error getCodeLens stringify).
Local Abbreviation resolve' :=
  (onCodeLensResolve Lens CodeLens Error stringify resolveCodeLens couldNotResolve).

Lemma find_snoc {A} (f : A -> bool) (l : list A) (x : A) :
  List.find f (l ++ [x])%list
  = match List.find f l with
    | Some y => Some y
    | None => if f x then Some x else None
    end.
Proof.
  induction l as [|y l IH]; cbn [List.app List.find]; [reflexivity|].
  destruct (f y); [reflexivity | exact IH].
Qed.

(** A key is bound to the last lens remembered under it, and
    otherwise to what it was bound to before. *)
Lemma lookup_rememberAll (key : string) (lenses : list Lens) :
  forall t,
    lookup' key (rememberAll' lenses t)
    = match List.find (fun lens => String.eqb (keyOf lens) key) (rev lenses) with
      | Some lens => Some lens
      | None => lookup' key t
      end.
Proof.
  induction lenses as [|lens lenses IH]; intros t; [reflexivity|].
  cbn [rememberAll fold_left rev].
  fold (rememberAll' lenses (remember Lens CodeLens getCodeLens stringify t lens)).
  rewrite IH, find_snoc.
  destruct (List.find _ (rev lenses)); [reflexivity|].
  cbn [remember lookup].
  destruct (String.eqb (keyOf lens) key); reflexivity.
Qed.

Lemma find_among {A} (f : A -> bool) (l : list A) (x : A) :
  In x l -> f x = true ->
  exists y, List.find f l = Some y /\ In y l /\ f y = true.
Proof.
  intros Hin Hx. induction l as [|z l IH]; [contradiction|].
  cbn [List.find]. destruct (f z) eqn:Hz.
  - exists z. repeat split; [now left | exact Hz].
  - destruct Hin as [->|Hin]; [congruence|].
    destruct (IH Hin) as (y & Hf & Hy & Hfy).
    exists y. repeat split; [exact Hf | now right | exact Hfy].
Qed.

(** X15. A lens the code lens request has answered with can be
    resolved: the request for its [CodeLens] finds a lens that was
    answered with under the same key, and resolves that one; when
    no two of the lenses answered with share a key, it is the lens
    itself. *)
Theorem answered_lens_resolves
    (provider : option Server.DafnyServerProvider)
    (lenses : list Lens) (t : table Lens) (lens : Lens) :
  Server.lensReady provider = true ->
  In lens lenses ->
  let t' := snd (onCodeLens' Server.Ready (Promise.Fulfilled lenses) t) in
  exists item,
    In item lenses /\
    keyOf item = keyOf lens /\
    lookup' (keyOf lens) t' = Some item /\
    resolve' provider (getCodeLens lens) t'
    = match resolveCodeLens item with
      | Promise.Pending => Promise.Pending
      | Promise.Fulfilled None =>
          Promise.Rejected (Thrown (couldNotResolve (getCodeLens lens) item))
      | Promise.Fulfilled (Some newLocal) => Promise.Fulfilled newLocal
      | Promise.Rejected e => Promise.Rejected (Passed e)
      end /\
    ((forall l1 l2, In l1 lenses -> In l2 lenses ->
        keyOf l1 = keyOf l2 -> l1 = l2) -> item = lens).
Proof.
  intros Hready Hin t'.
  destruct (find_among (fun l => String.eqb (keyOf l) (keyOf lens))
              (rev lenses) lens) as (item & Hfind & Hitem & Hkey).
  { now apply in_rev in Hin. }
  { apply String.eqb_refl. }
  apply in_rev in Hitem. apply String.eqb_eq in Hkey.
  assert (Hlook : lookup' (keyOf lens) t' = Some item).
  { unfold t'. cbn [onCodeLens snd]. now rewrite lookup_rememberAll, Hfind. }
  exists item.
  split; [exact Hitem|]. split; [exact Hkey|]. split; [exact Hlook|]. split.
  - unfold onCodeLensResolve. rewrite Hready, Hlook. reflexivity.
  - intros Hinj. now apply Hinj.
Qed.

(** X16. The table of lenses never forgets: a key that was bound
    stays bound through every later code lens request, to the same
    lens unless the request answers with a lens of that key; and a
    request that times out or whose provider fails leaves the
    table as it was. *)
Theorem lens_table_only_grows (gate : Server.gate)
    (lenses : Promise.t (list Lens) Error) (t : table Lens)
    (key : string) (item : Lens) :
  lookup' key t = Some item ->
  let t' := snd (onCodeLens' gate lenses t) in
  (exists item', lookup' key t' = Some item') /\
  ((forall ls, lenses = Promise.Fulfilled ls ->
      Forall (fun lens => keyOf lens <> key) ls) ->
   lookup' key t' = Some item) /\
  (gate = Server.Timeout \/ Promise.is_fulfilled lenses = false -> t' = t).
Proof.
  intros Hbound t'. unfold t'.
  destruct gate; cbn [onCodeLens].
  - destruct lenses as [|ls|e]; cbn [snd].
    + repeat split; eauto.
    + rewrite lookup_rememberAll. split; [|split].
      * destruct (List.find _ (rev ls)); eauto.
      * intros Hfresh.
        rewrite BaseCodeLensProviderFacts.find_none; [exact Hbound|].
        apply Forall_forall. intros lens Hl. apply in_rev in Hl.
        pose proof (Hfresh ls eq_refl) as Hall.
        rewrite Forall_forall in Hall.
        apply String.eqb_neq. now apply Hall.
      * intros [H|H]; discriminate.
    + repeat split; eauto.
  - cbn [snd]. repeat split; eauto.
Qed.

End Lenses.

(** ** Installation *)

(** X17. With the same installer before and after the wait, the
    install request is never rejected: it is answered with the base
    path when the uninstallation and the installation both succeed,
    after which the dependencies are verified once; in every other
    case, without an installer or with an uninstallation or an
    installation that fails, the request is left without an answer. *)
Theorem install_request_answers_or_hangs (installer : option DafnyInstaller) :
  onRequestInstall installer installer
  = match installer with
    | Some {| uninstalling := Promise.Return _;
              installing := Promise.Fulfilled path |} =>
        {| answer := Promise.Fulfilled path; basePath := Some path;
           verifications := 1 |}
    | _ => {| answer := Promise.Pending; basePath := None; verifications := 0 |}
    end /\
  Promise.is_rejected (answer (onRequestInstall installer installer)) = false.
Proof.
  destruct installer as [[[u|e] [|path|e']]|]; split; reflexivity.
Qed.

(** X18. Whatever the installers, the install request is rejected
    only when the uninstallation succeeded and the installer has gone
    by the time the handler looks for it, and then without a reason;
    after a failed uninstallation nothing is installed, the settings
    are not touched and the dependencies are not verified. *)
Theorem install_request_rejection (before later : option DafnyInstaller) :
  (forall r, answer (onRequestInstall before later) = Promise.Rejected r ->
     r = None /\ later = None /\
     exists i, before = Some i /\ uninstalling i = Promise.Return tt) /\
  (Promise.is_fulfilled (Server.uninstall (option_map uninstalling before)) = false ->
     onRequestInstall before later
     = {| answer := Promise.Pending; basePath := None; verifications := 0 |}).
Proof.
  split.
  - intros r. unfold onRequestInstall.
    destruct before as [[[[]|e] ib]|]; cbn; try discriminate.
    destruct later as [[u [|path|e']]|]; cbn; try discriminate.
    intros H. injection H as <-. repeat split. eexists. split; reflexivity.
  - unfold onRequestInstall.
    destruct (Server.uninstall (option_map uninstalling before));
      [reflexivity | discriminate | reflexivity].
Qed.

(** ** Uninstallation *)

(** X19. [uninstallDafny] waits a second and then until the first
    poll at which the server of the provider no longer runs, a second
    a poll; after [MAX_CONNECTION_RETRIES] polls it stops waiting,
    and in either case it goes on to uninstall: whether the server
    has stopped has no part in the answer. *)
Theorem uninstall_waits_then_uninstalls
    (p : Server.DafnyServerProvider)
    (provider_at : nat -> option Server.DafnyServerProvider)
    (installer : option DafnyInstaller) :
  (forall k, (k <= Server.MAX_CONNECTION_RETRIES)%nat ->
     Server.stillRunning (provider_at k) = false ->
     (forall j, (j < k)%nat -> Server.stillRunning (provider_at j) = true) ->
     fst (uninstallDafny (Some p) provider_at installer)
     = {| Server.stopCalled := true; Server.polls := k;
          Server.waitedMs := 1000 + Z.of_nat k * 1000 |}) /\
  ((forall j, (j < Server.MAX_CONNECTION_RETRIES)%nat ->
      Server.stillRunning (provider_at j) = true) ->
     fst (uninstallDafny (Some p) provider_at installer)
     = {| Server.stopCalled := true; Server.polls := 30;
          Server.waitedMs := 31000 |}) /\
  snd (uninstallDafny (Some p) provider_at installer)
  = snd (uninstallDafny None provider_at installer).
Proof.
  split; [|split].
  - intros k Hk Hstop Hrun. cbn [uninstallDafny fst]. unfold Server.stopProvider.
    rewrite (ServerFacts.poll_stops _ k Server.MAX_CONNECTION_RETRIES 0%nat Hk);
      [reflexivity | exact Hrun | exact Hstop].
  - intros Hrun. cbn [uninstallDafny fst]. unfold Server.stopProvider.
    rewrite ServerFacts.poll_gives_up; [reflexivity | exact Hrun].
  - reflexivity.
Qed.

(** ** Examples *)

Lemma uninstall_waits_then_uninstalls_witness :
  fst (uninstallDafny
         (Some {| Server.referenceProvider := true; Server.compiler := true;
                  Server.isRunning := true |})
         (runs_until 2) None)
  = {| Server.stopCalled := true; Server.polls := 2; Server.waitedMs := 3000 |}.
Proof.
  destruct (uninstall_waits_then_uninstalls
              {| Server.referenceProvider := true; Server.compiler := true;
                 Server.isRunning := true |}
              (runs_until 2) None) as [Hstops _].
  apply (Hstops 2%nat).
  - unfold Server.MAX_CONNECTION_RETRIES. lia.
  - reflexivity.
  - intros j Hj. destruct j as [|[|j]]; [reflexivity | reflexivity | lia].
Defined.

Lemma rename_request_rejects_only_thrown_witness :
  onRenameRequest string nat nat nat string string
    RenameProvider.sampleDecorator
    (fun text _ => Promise.Return text)
    (fun _ => Promise.Return (Promise.Rejected "symbol service down"))
    (fun _ _ _ _ => Promise.Return 0%nat) (fun _ _ => "could not prepare")
    true None 3%nat "n"
  = Promise.Rejected (Passed "TypeError: document is undefined") /\
  onRenameRequest string nat nat nat string string
    RenameProvider.sampleDecorator
    (fun text _ => Promise.Return text)
    (fun _ => Promise.Return (Promise.Rejected "symbol service down"))
    (fun _ _ _ _ => Promise.Return 0%nat) (fun _ _ => "could not prepare")
    true (Some "method m() {}") 3%nat "n"
  = Promise.Fulfilled RenameProvider.emptyEdit.
Proof.
  split.
  - destruct (rename_request_rejects_only_thrown string nat nat nat string string
                RenameProvider.sampleDecorator
                (fun text _ => Promise.Return text)
                (fun _ => Promise.Return (Promise.Rejected "symbol service down"))
                (fun _ _ _ _ => Promise.Return 0%nat)
                (fun _ _ => "could not prepare") None 3%nat "n")
      as (_ & Hthrown & _).
    apply Hthrown. reflexivity.
  - destruct (rename_request_rejects_only_thrown string nat nat nat string string
                RenameProvider.sampleDecorator
                (fun text _ => Promise.Return text)
                (fun _ => Promise.Return (Promise.Rejected "symbol service down"))
                (fun _ _ _ _ => Promise.Return 0%nat)
                (fun _ _ => "could not prepare") (Some "method m() {}") 3%nat "n")
      as (_ & _ & Hempty & _).
    apply (Hempty "method m() {}" "method m() {}" "symbol service down");
      reflexivity.
Defined.

Lemma answered_lens_resolves_witness :
  let lenses := [("r1", 1%nat); ("r2", 2%nat); ("r1", 3%nat)] in
  let t' :=
    snd (onCodeLens (string * nat) string string fst (fun c => c)
           Server.Ready (Promise.Fulfilled lenses) []) in
  exists item,
    In item lenses /\
    fst item = "r1" /\
    lookup (string * nat) "r1" t' = Some item.
Proof.
  intros lenses t'.
  destruct (answered_lens_resolves (string * nat) string string fst (fun c => c)
              (fun _ => Promise.Pending) (fun _ _ => "")
              (Some {| Server.referenceProvider := true; Server.compiler := true;
                       Server.isRunning := true |})
              lenses [] ("r1", 1%nat))
    as (item & Hin & Hkey & Hlook & _).
  - reflexivity.
  - now left.
  - exists item. split; [exact Hin|]. split; [exact Hkey | exact Hlook].
Defined.

Lemma lens_table_only_grows_witness :
  let t := [("r1", ("r1", 1%nat))] in
  let t' :=
    snd (onCodeLens (string * nat) string string fst (fun c => c)
           Server.Ready (Promise.Fulfilled [("r2", 2%nat)]) t) in
  lookup (string * nat) "r1" t' = Some ("r1", 1%nat).
Proof.
  intros t t'.
  destruct (lens_table_only_grows (string * nat) string string fst (fun c => c)
              Server.Ready (Promise.Fulfilled [("r2", 2%nat)]) t "r1" ("r1", 1%nat))
    as (_ & Hsame & _).
  - reflexivity.
  - apply Hsame. intros ls Hls. injection Hls as <-.
    repeat constructor. discriminate.
Defined.

Lemma install_request_rejection_witness :
  onRequestInstall None
    (Some {| uninstalling := Promise.Return tt;
             installing := Promise.Fulfilled "/opt/dafny" |})
  = {| answer := Promise.Pending; basePath := None; verifications := 0 |}.
Proof.
  destruct (install_request_rejection None
              (Some {| uninstalling := Promise.Return tt;
                       installing := Promise.Fulfilled "/opt/dafny" |}))
    as [_ Hhangs].
  apply Hhangs. reflexivity.
Defined.

End HandlersFacts.
